(** * twitter-rt-bot: a shallow embedding of [main.py]

    The script reads [configuration.json], builds a tweepy client, parses the
    query parameters, and collects the tweets returned by a search; it writes
    a plain-text log on the way.  Python text is modelled as [string], a
    character being a code point below 256; exceptions are values of [exn],
    and the script's effects (the log file, the clock, the calls made to
    tweepy, the module's global variables) a state-and-error monad over
    [World].  What the script cannot decide itself (the clock, whether
    [logs.txt] can be opened at a given moment, what is in
    [configuration.json], how tweepy answers, the wording of the
    interpreter's own errors) is collected in [Env]. *)

From Stdlib Require Import String Ascii List ZArith Lia Bool Arith.
Import ListNotations.
Open Scope string_scope.

(** ** Python text: [str.lower], [str.upper], [str.strip]

    A character is a code point below 256: the ASCII characters and those
    of the Latin-1 supplement.  On such text [lower], [strip] and [repr]
    are Python's.  [upper] is Python's on every text that has neither the
    micro sign (181) nor the y with diaeresis (255): the capitals of
    these two are code points above 255, which a [string] cannot hold;
    [upper_exact] says a text has neither. *)

Module PyStr.

(** The capital letters: A to Z, and in the supplement 192 to 222 without
    the multiplication sign (215). *)
Definition is_upper (c : ascii) : bool :=
  let n := nat_of_ascii c in
  ((65 <=? n)%nat && (n <=? 90)%nat) ||
  ((192 <=? n)%nat && (n <=? 222)%nat && negb (n =? 215)%nat).

(** The small letters that have a capital 32 below: a to z, and in the
    supplement 224 to 254 without the division sign (247). *)
Definition is_lower (c : ascii) : bool :=
  let n := nat_of_ascii c in
  ((97 <=? n)%nat && (n <=? 122)%nat) ||
  ((224 <=? n)%nat && (n <=? 254)%nat && negb (n =? 247)%nat).

(** The characters [str.strip] removes: TAB, LF, VT, FF, CR, the four
    separators FS, GS, RS, US, the space, and in the supplement the next
    line control (133) and the no-break space (160). *)
Definition is_space (c : ascii) : bool :=
  let n := nat_of_ascii c in
  ((9 <=? n)%nat && (n <=? 13)%nat) || ((28 <=? n)%nat && (n <=? 32)%nat) ||
  (n =? 133)%nat || (n =? 160)%nat.

Definition lower_char (c : ascii) : ascii :=
  if is_upper c then ascii_of_nat (nat_of_ascii c + 32) else c.

(** The capital of one character: the letter 32 below for a small letter,
    two capital S for the sharp s (223), the character itself otherwise. *)
Definition upper_char (c : ascii) : string :=
  if is_lower c then String (ascii_of_nat (nat_of_ascii c - 32)) EmptyString
  else if (nat_of_ascii c =? 223)%nat then "SS"
  else String c EmptyString.

Fixpoint map_chars (f : ascii -> ascii) (s : string) : string :=
  match s with
  | EmptyString => EmptyString
  | String c s' => String (f c) (map_chars f s')
  end.

Definition lower (s : string) : string := map_chars lower_char s.

Fixpoint upper (s : string) : string :=
  match s with
  | EmptyString => EmptyString
  | String c s' => upper_char c ++ upper s'
  end.

(** The text has neither the micro sign nor the y with diaeresis. *)
Fixpoint upper_exact (s : string) : bool :=
  match s with
  | EmptyString => true
  | String c s' =>
      negb (nat_of_ascii c =? 181)%nat && negb (nat_of_ascii c =? 255)%nat &&
      upper_exact s'
  end.

Fixpoint lstrip (s : string) : string :=
  match s with
  | EmptyString => EmptyString
  | String c s' => if is_space c then lstrip s' else s
  end.

Fixpoint rstrip (s : string) : string :=
  match s with
  | EmptyString => EmptyString
  | String c s' =>
      match rstrip s' with
      | EmptyString => if is_space c then EmptyString else String c EmptyString
      | r => String c r
      end
  end.

Definition strip (s : string) : string := rstrip (lstrip s).

(** [sep.join(parts)] *)
Fixpoint join (sep : string) (parts : list string) : string :=
  match parts with
  | [] => ""
  | [p] => p
  | p :: rest => p ++ sep ++ join sep rest
  end.

(** [needle in hay] for two strings. *)
Definition contains (needle hay : string) : Prop :=
  exists pre post, hay = pre ++ needle ++ post.

Fixpoint starts_with (p s : string) : bool :=
  match p, s with
  | EmptyString, _ => true
  | String a p', String b s' => Ascii.eqb a b && starts_with p' s'
  | String _ _, EmptyString => false
  end.

Fixpoint containsb (needle hay : string) : bool :=
  starts_with needle hay ||
  match hay with
  | EmptyString => false
  | String _ hay' => containsb needle hay'
  end.

(** [repr] of a string: the quote is the apostrophe unless the text has an
    apostrophe and no double quote (character 34); backslash (character 92)
    and the quote are escaped, and so is what is not printable: the
    controls below 32 and from 127 to 159, the no-break space (160) and
    the soft hyphen (173). *)
Definition hex_digit (n : nat) : ascii :=
  ascii_of_nat (if (n <? 10)%nat then 48 + n else 87 + n).

Definition escape_char (quote c : ascii) : string :=
  let n := nat_of_ascii c in
  if Ascii.eqb c "092"%char then "\\"
  else if Ascii.eqb c quote then String "092"%char (String c "")
  else if (n =? 10)%nat then "\n"
  else if (n =? 13)%nat then "\r"
  else if (n =? 9)%nat then "\t"
  else if ((n <? 32) || ((127 <=? n) && (n <=? 160)) || (n =? 173))%nat
       then String "092"%char (String "x"%char
              (String (hex_digit (n / 16)) (String (hex_digit (n mod 16)) "")))
  else String c "".

Fixpoint has_char (c : ascii) (s : string) : bool :=
  match s with
  | EmptyString => false
  | String a s' => Ascii.eqb a c || has_char c s'
  end.

Fixpoint escape_all (quote : ascii) (s : string) : string :=
  match s with
  | EmptyString => EmptyString
  | String c s' => escape_char quote c ++ escape_all quote s'
  end.

Definition repr (s : string) : string :=
  let quote : ascii :=
    if has_char "'"%char s && negb (has_char "034"%char s)
    then "034"%char else "'"%char in
  String quote (escape_all quote s ++ String quote "").

End PyStr.

Import PyStr.

(** The line feed, written [\n] in the source. *)
Definition nl : string := String "010"%char EmptyString.

(** Letters of the supplement change case like the others: the capital of
    233 is 201, the sharp s (223) becomes two letters, and the signs 215
    and 247 are no letters. *)
Example case_in_the_supplement :
  upper ("caf" ++ String "233"%char "") = "CAF" ++ String "201"%char "" /\
  lower (String "201"%char "COLE") = String "233"%char "cole" /\
  upper (String "223"%char "") = "SS" /\
  upper (String "247"%char "") = String "247"%char "" /\
  lower (String "215"%char "") = String "215"%char "".
Proof. repeat split. Qed.

(** The characters [str.strip] removes, by code. *)
Lemma is_space_codes (c : ascii) :
  is_space c = true <->
  In (nat_of_ascii c) [9; 10; 11; 12; 13; 28; 29; 30; 31; 32; 133; 160].
Proof.
  destruct c as [[] [] [] [] [] [] [] []]; vm_compute; split; intros H;
    try reflexivity; try discriminate H; try tauto;
    repeat (destruct H as [H|H]; [discriminate H|]); destruct H.
Qed.

(** ** Exceptions *)

(** The exception classes the script can meet.  [Exception_] stands for any
    other subclass of [Exception] (an [OSError] from the file system, a tweepy
    error, a JSON decoding error); [BaseException_] for what is not an
    [Exception] ([KeyboardInterrupt], [SystemExit]). *)
Inductive exn_class : Type :=
| KeyError | IndexError | FileNotFoundError | RecursionError
| NameError | TypeError | AttributeError | Exception_ | BaseException_.

(** An exception: its class and the text it was built with. *)
Inductive exn : Type := Exn (c : exn_class) (arg : string).

Definition exn_class_eqb (a b : exn_class) : bool :=
  match a, b with
  | KeyError, KeyError | IndexError, IndexError
  | FileNotFoundError, FileNotFoundError | RecursionError, RecursionError
  | NameError, NameError | TypeError, TypeError
  | AttributeError, AttributeError | Exception_, Exception_
  | BaseException_, BaseException_ => true
  | _, _ => false
  end.

Definition class_of (e : exn) : exn_class := let 'Exn c _ := e in c.
Definition arg_of (e : exn) : string := let 'Exn _ a := e in a.

(** [except KeyError], [except FileNotFoundError], [except Exception] and the
    bare [except] as predicates on the raised exception. *)
Definition is_KeyError (e : exn) : bool := exn_class_eqb (class_of e) KeyError.
Definition is_FileNotFoundError (e : exn) : bool :=
  exn_class_eqb (class_of e) FileNotFoundError.
Definition is_Exception (e : exn) : bool :=
  negb (exn_class_eqb (class_of e) BaseException_).
Definition is_anything (e : exn) : bool := true.

(** [KeyError] and [IndexError] are the two subclasses of [LookupError]. *)
Definition is_LookupError (e : exn) : bool :=
  match class_of e with KeyError | IndexError => true | _ => false end.

(** [str(e)]: a [KeyError] renders the [repr] of its argument, the others the
    argument itself. *)
Definition exn_str (e : exn) : string :=
  match e with
  | Exn KeyError a => repr a
  | Exn _ a => a
  end.

(** ** JSON values, as [json.load] returns them *)

#[local] Set Warnings "-register-all".

Inductive json : Type :=
| JNull
| JBool (b : bool)
| JInt (z : Z)
| JFloat (text : string)
| JStr (s : string)
| JList (l : list json)
| JDict (d : list (string * json)).

Definition type_name (v : json) : string :=
  match v with
  | JNull => "NoneType" | JBool _ => "bool" | JInt _ => "int"
  | JFloat _ => "float" | JStr _ => "str" | JList _ => "list"
  | JDict _ => "dict"
  end.

(** The errors the interpreter raises by itself in this script.  Their
    wording changes from one version of Python to the next, so [Env] gives
    it. *)
Inductive fault : Type :=
| RecursionLimit                            (* no frame is left *)
| UnboundName (name : string)               (* a name read before it is bound *)
| BadSubscript (v : json)                   (* v[key], v not a dict *)
| NoAttribute (type attr : string).         (* v.attr, v of a type without attr *)

(** A dict is kept as its items; the first item with the key is the entry. *)
Fixpoint dict_get {V : Type} (d : list (string * V)) (k : string) : option V :=
  match d with
  | [] => None
  | (k', v) :: d' => if String.eqb k' k then Some v else dict_get d' k
  end.

Inductive result (A : Type) : Type :=
| Ok (a : A)
| Raise (e : exn).
Arguments Ok {A} a.
Arguments Raise {A} e.

(** ** The world the script runs in *)

(** What tweepy hands over for one search result: the three attributes the
    script reads. *)
Record status : Type := {
  st_id : Z;
  st_created_at : string;
  st_text : string
}.

(** The dict built for each result: keys [id], [created-at], [text]. *)
Record tweet : Type := {
  tw_id : Z;
  tw_created_at : string;
  tw_text : string
}.

(** The [OAuthHandler] object: the consumer pair it was built with and the
    access token attached to it, if any. *)
Record auth_handler : Type := {
  ah_consumer_key : json;
  ah_consumer_secret : json;
  ah_access_token : option (json * json)
}.

Inductive api_handle : Type := ApiHandle (a : auth_handler).

(** The calls made to tweepy, in the order they were made. *)
Inductive api_call : Type :=
| CallOAuthHandler (consumer_key consumer_secret : json)
| CallSetAccessToken (key secret : json)
| CallApi (a : auth_handler)
| CallSearch (q limit : json).

Definition is_search (c : api_call) : bool :=
  match c with CallSearch _ _ => true | _ => false end.

(** The module's global variables.  [configuration] is [None] while the name
    is unbound; [auth] and [api] are [None] when they hold Python's [None]. *)
Record Globals : Type := {
  configuration : option json;
  CONSUMER_KEY : json;
  CONSUMER_SECRET : json;
  ACCESS_TOKEN : json;
  ACCESS_TOKEN_SECRET : json;
  auth : option auth_handler;
  api : option api_handle;
  HASHTAG : json;
  MAX_TWEETS : json;
  LANGUAGE : json;
  RESULT_TYPE : json;
  tweets : list tweet
}.

Record World : Type := {
  logs : string;            (* the contents of logs.txt *)
  ticks : nat;              (* how many times the clock was read *)
  calls : list api_call;    (* the calls made to tweepy so far *)
  globals : Globals
}.

(** One reading of the clock, already formatted: [strftime] with
    [%d/%m/%Y] and with [%H:%M:%S]. *)
Record clock_reading : Type := {
  date_text : string;
  time_text : string
}.

(** What the script does not decide.  [logs_io n] says what opening
    [logs.txt] for appending and writing to it gives when the clock has been
    read [n] times: [None] when it works, the exception raised otherwise
    (the file missing, no right to write, a character the file's encoding
    does not have).
    The logger reads the clock before each opening, so the openings of a
    run come at different readings and each can have its own answer.
    [fault_text] is the text of the interpreter's own errors.
    [read_configuration] is what opening and parsing [configuration.json]
    gives.  The tweepy fields say whether a call raises; [search_items]
    gives the statuses the cursor yields and the exception that ends the
    iteration, if one does. *)
Record Env : Type := {
  clock : nat -> clock_reading;
  logs_io : nat -> option exn;
  fault_text : fault -> string;
  read_configuration : result json;
  OAuthHandler_raises : json -> json -> option exn;
  set_access_token_raises : json -> json -> option exn;
  api_raises : auth_handler -> option exn;
  search_items : api_handle -> json -> json -> list status * option exn
}.

(** ** The state-and-error monad *)

Definition M (A : Type) : Type := World -> result A * World.

Definition ret {A : Type} (a : A) : M A := fun w => (Ok a, w).
Definition raise {A : Type} (e : exn) : M A := fun w => (Raise e, w).
Definition bind {A B : Type} (m : M A) (k : A -> M B) : M B :=
  fun w =>
    match m w with
    | (Ok a, w') => k a w'
    | (Raise e, w') => (Raise e, w')
    end.

Notation "x <- m ;; k" := (bind m (fun x => k))
  (at level 61, m at next level, right associativity).
Notation "m ;; k" := (bind m (fun _ => k))
  (at level 61, right associativity).

Definition lift {A : Type} (r : result A) : M A := fun w => (r, w).

(** One [except] clause: the test on the exception and the handler body. *)
Definition clause (A : Type) : Type := ((exn -> bool) * (exn -> M A))%type.

Fixpoint dispatch {A : Type} (cs : list (clause A)) (e : exn) : option (M A) :=
  match cs with
  | [] => None
  | (test, h) :: cs' => if test e then Some (h e) else dispatch cs' e
  end.

(** [try: body except ...]: the first clause that matches handles the
    exception; an exception raised by a handler is not handled again. *)
Definition try_except {A : Type} (body : M A) (cs : list (clause A)) : M A :=
  fun w =>
    match body w with
    | (Ok a, w') => (Ok a, w')
    | (Raise e, w') =>
        match dispatch cs e with
        | Some h => h w'
        | None => (Raise e, w')
        end
    end.

(** [for x in l: body x] *)
Fixpoint for_each {A : Type} (l : list A) (body : A -> M unit) : M unit :=
  match l with
  | [] => ret tt
  | x :: l' => body x ;; for_each l' body
  end.

(** [d[k]] on a dict with string keys. *)
Definition dict_index {V : Type} (d : list (string * V)) (k : string) : M V :=
  match dict_get d k with
  | Some v => ret v
  | None => raise (Exn KeyError k)
  end.

(** Reading and writing the state. *)
Definition get {A : Type} (f : Globals -> A) : M A :=
  fun w => (Ok (f (globals w)), w).

Definition modify_globals (f : Globals -> Globals) : M unit :=
  fun w => (Ok tt, {| logs := logs w; ticks := ticks w; calls := calls w;
                      globals := f (globals w) |}).

Definition record_call (c : api_call) : M unit :=
  fun w => (Ok tt, {| logs := logs w; ticks := ticks w;
                      calls := calls w ++ [c]; globals := globals w |}).

(** Assignments to the module's globals. *)
Definition set_configuration (v : json) (g : Globals) : Globals :=
  {| configuration := Some v; CONSUMER_KEY := CONSUMER_KEY g;
     CONSUMER_SECRET := CONSUMER_SECRET g; ACCESS_TOKEN := ACCESS_TOKEN g;
     ACCESS_TOKEN_SECRET := ACCESS_TOKEN_SECRET g; auth := auth g; api := api g;
     HASHTAG := HASHTAG g; MAX_TWEETS := MAX_TWEETS g; LANGUAGE := LANGUAGE g;
     RESULT_TYPE := RESULT_TYPE g; tweets := tweets g |}.

Definition set_CONSUMER_KEY (v : json) (g : Globals) : Globals :=
  {| configuration := configuration g; CONSUMER_KEY := v;
     CONSUMER_SECRET := CONSUMER_SECRET g; ACCESS_TOKEN := ACCESS_TOKEN g;
     ACCESS_TOKEN_SECRET := ACCESS_TOKEN_SECRET g; auth := auth g; api := api g;
     HASHTAG := HASHTAG g; MAX_TWEETS := MAX_TWEETS g; LANGUAGE := LANGUAGE g;
     RESULT_TYPE := RESULT_TYPE g; tweets := tweets g |}.

Definition set_CONSUMER_SECRET (v : json) (g : Globals) : Globals :=
  {| configuration := configuration g; CONSUMER_KEY := CONSUMER_KEY g;
     CONSUMER_SECRET := v; ACCESS_TOKEN := ACCESS_TOKEN g;
     ACCESS_TOKEN_SECRET := ACCESS_TOKEN_SECRET g; auth := auth g; api := api g;
     HASHTAG := HASHTAG g; MAX_TWEETS := MAX_TWEETS g; LANGUAGE := LANGUAGE g;
     RESULT_TYPE := RESULT_TYPE g; tweets := tweets g |}.

Definition set_ACCESS_TOKEN (v : json) (g : Globals) : Globals :=
  {| configuration := configuration g; CONSUMER_KEY := CONSUMER_KEY g;
     CONSUMER_SECRET := CONSUMER_SECRET g; ACCESS_TOKEN := v;
     ACCESS_TOKEN_SECRET := ACCESS_TOKEN_SECRET g; auth := auth g; api := api g;
     HASHTAG := HASHTAG g; MAX_TWEETS := MAX_TWEETS g; LANGUAGE := LANGUAGE g;
     RESULT_TYPE := RESULT_TYPE g; tweets := tweets g |}.

Definition set_ACCESS_TOKEN_SECRET (v : json) (g : Globals) : Globals :=
  {| configuration := configuration g; CONSUMER_KEY := CONSUMER_KEY g;
     CONSUMER_SECRET := CONSUMER_SECRET g; ACCESS_TOKEN := ACCESS_TOKEN g;
     ACCESS_TOKEN_SECRET := v; auth := auth g; api := api g;
     HASHTAG := HASHTAG g; MAX_TWEETS := MAX_TWEETS g; LANGUAGE := LANGUAGE g;
     RESULT_TYPE := RESULT_TYPE g; tweets := tweets g |}.

Definition set_auth (v : option auth_handler) (g : Globals) : Globals :=
  {| configuration := configuration g; CONSUMER_KEY := CONSUMER_KEY g;
     CONSUMER_SECRET := CONSUMER_SECRET g; ACCESS_TOKEN := ACCESS_TOKEN g;
     ACCESS_TOKEN_SECRET := ACCESS_TOKEN_SECRET g; auth := v; api := api g;
     HASHTAG := HASHTAG g; MAX_TWEETS := MAX_TWEETS g; LANGUAGE := LANGUAGE g;
     RESULT_TYPE := RESULT_TYPE g; tweets := tweets g |}.

Definition set_api (v : option api_handle) (g : Globals) : Globals :=
  {| configuration := configuration g; CONSUMER_KEY := CONSUMER_KEY g;
     CONSUMER_SECRET := CONSUMER_SECRET g; ACCESS_TOKEN := ACCESS_TOKEN g;
     ACCESS_TOKEN_SECRET := ACCESS_TOKEN_SECRET g; auth := auth g; api := v;
     HASHTAG := HASHTAG g; MAX_TWEETS := MAX_TWEETS g; LANGUAGE := LANGUAGE g;
     RESULT_TYPE := RESULT_TYPE g; tweets := tweets g |}.

Definition set_HASHTAG (v : json) (g : Globals) : Globals :=
  {| configuration := configuration g; CONSUMER_KEY := CONSUMER_KEY g;
     CONSUMER_SECRET := CONSUMER_SECRET g; ACCESS_TOKEN := ACCESS_TOKEN g;
     ACCESS_TOKEN_SECRET := ACCESS_TOKEN_SECRET g; auth := auth g; api := api g;
     HASHTAG := v; MAX_TWEETS := MAX_TWEETS g; LANGUAGE := LANGUAGE g;
     RESULT_TYPE := RESULT_TYPE g; tweets := tweets g |}.

Definition set_MAX_TWEETS (v : json) (g : Globals) : Globals :=
  {| configuration := configuration g; CONSUMER_KEY := CONSUMER_KEY g;
     CONSUMER_SECRET := CONSUMER_SECRET g; ACCESS_TOKEN := ACCESS_TOKEN g;
     ACCESS_TOKEN_SECRET := ACCESS_TOKEN_SECRET g; auth := auth g; api := api g;
     HASHTAG := HASHTAG g; MAX_TWEETS := v; LANGUAGE := LANGUAGE g;
     RESULT_TYPE := RESULT_TYPE g; tweets := tweets g |}.

Definition set_LANGUAGE (v : json) (g : Globals) : Globals :=
  {| configuration := configuration g; CONSUMER_KEY := CONSUMER_KEY g;
     CONSUMER_SECRET := CONSUMER_SECRET g; ACCESS_TOKEN := ACCESS_TOKEN g;
     ACCESS_TOKEN_SECRET := ACCESS_TOKEN_SECRET g; auth := auth g; api := api g;
     HASHTAG := HASHTAG g; MAX_TWEETS := MAX_TWEETS g; LANGUAGE := v;
     RESULT_TYPE := RESULT_TYPE g; tweets := tweets g |}.

Definition set_RESULT_TYPE (v : json) (g : Globals) : Globals :=
  {| configuration := configuration g; CONSUMER_KEY := CONSUMER_KEY g;
     CONSUMER_SECRET := CONSUMER_SECRET g; ACCESS_TOKEN := ACCESS_TOKEN g;
     ACCESS_TOKEN_SECRET := ACCESS_TOKEN_SECRET g; auth := auth g; api := api g;
     HASHTAG := HASHTAG g; MAX_TWEETS := MAX_TWEETS g; LANGUAGE := LANGUAGE g;
     RESULT_TYPE := v; tweets := tweets g |}.

Definition set_tweets (v : list tweet) (g : Globals) : Globals :=
  {| configuration := configuration g; CONSUMER_KEY := CONSUMER_KEY g;
     CONSUMER_SECRET := CONSUMER_SECRET g; ACCESS_TOKEN := ACCESS_TOKEN g;
     ACCESS_TOKEN_SECRET := ACCESS_TOKEN_SECRET g; auth := auth g; api := api g;
     HASHTAG := HASHTAG g; MAX_TWEETS := MAX_TWEETS g; LANGUAGE := LANGUAGE g;
     RESULT_TYPE := RESULT_TYPE g; tweets := v |}.

(** ** The script *)

Definition CONFIGURATION_ROUTE : string := "configuration.json".
Definition LOGS_ROUTE : string := "logs.txt".

Section Script.

Variable env : Env.

(** A call of a Python function takes a frame: every function below takes
    the number [d] of frames still available and raises [RecursionError]
    when none is left. *)
Definition recursion_error : exn :=
  Exn RecursionError (fault_text env RecursionLimit).

(** [v[key]] with a string key. *)
Definition getitem (v : json) (key : string) : result json :=
  match v with
  | JDict d =>
      match dict_get d key with
      | Some x => Ok x
      | None => Raise (Exn KeyError key)
      end
  | _ => Raise (Exn TypeError (fault_text env (BadSubscript v)))
  end.

(** [v.lower()]: only a [str] has the method. *)
Definition call_lower (v : json) : result string :=
  match v with
  | JStr s => Ok (lower s)
  | _ => Raise (Exn AttributeError
                  (fault_text env (NoAttribute (type_name v) "lower")))
  end.

(** Reading [configuration] raises [NameError] while the name is unbound. *)
Definition get_configuration : M json :=
  c <- get configuration ;;
  match c with
  | Some v => ret v
  | None => raise (Exn NameError (fault_text env (UnboundName "configuration")))
  end.

(** [main.py], lines 22-30. *)
Definition get_current_time (d : nat) : M string :=
  match d with
  | O => raise recursion_error
  | S _ => fun w =>
      let current_date := date_text (clock env (ticks w)) in
      let current_time := time_text (clock env (S (ticks w))) in
      (Ok (current_date ++ " at " ++ current_time),
       {| logs := logs w; ticks := S (S (ticks w)); calls := calls w;
          globals := globals w |})
  end.

(** [with open(LOGS_ROUTE, "a") as f: f.write(message)] *)
Definition append_logs (message : string) : M unit :=
  fun w =>
    match logs_io env (ticks w) with
    | None => (Ok tt, {| logs := logs w ++ message; ticks := ticks w;
                         calls := calls w; globals := globals w |})
    | Some e => (Raise e, w)
    end.

Definition types_hash : list (string * string) :=
  [("info", "I"); ("error", "E")].

(** [main.py], lines 33-74 and 77-84. *)
Fixpoint log (d : nat) (msg log_type : string) {struct d} : M unit :=
  match d with
  | O => raise recursion_error
  | S d' =>
      let log_type := strip (lower log_type) in
      message <-
        try_except
          (if negb (log_type =? "title")
           then t <- dict_index types_hash log_type ;;
                ret ("[" ++ t ++ "]: " ++ msg)
           else ret msg)
          [ (is_KeyError, fun _ =>
               let err :=
                 "Internal key error when trying to log an error inside the script" in
               log d' err "error" ;;
               raise (Exn KeyError err));
            (is_Exception, fun e =>
               log_undefined_error d' e ;; ret msg) ] ;;
      let message := if log_type =? "title" then upper msg else message in
      time <- get_current_time d' ;;
      let message := nl ++ time ++ " | " ++ message in
      try_except
        (append_logs message)
        [ (is_FileNotFoundError, fun _ =>
             let err := "Can't find the logs file, to save the log..." in
             log d' err "error" ;;
             raise (Exn FileNotFoundError err));
          (is_Exception, fun e => log_undefined_error d' e) ]
  end
with log_undefined_error (d : nat) (e : exn) {struct d} : M unit :=
  match d with
  | O => raise recursion_error
  | S d' =>
      let msg := "An exception is not handled: " ++ exn_str e in
      log d' msg "error"
  end.

Definition languages : list (string * string) :=
  [("arab", "ar"); ("greek", "el"); ("german", "de"); ("english", "en");
   ("spanish", "es"); ("french", "fr"); ("italian", "it"); ("korean", "ko");
   ("russian", "ru"); ("chines", "zn")].

(** The text of the [KeyError] raised for an unsupported language. *)
Definition language_error (language : string) : string :=
  let LANGS := join (nl ++ "   -") (map fst languages) in
  let err := "Sorry, but we can't get the language '" ++ language ++ "'..." in
  let err := err ++ nl ++ "We currently have support for the following languages:" in
  let err := err ++ LANGS in
  let err := err ++
    "If you think that your language should be supported, you can create a pr on GitHub: " in
  let err := err ++ nl ++ " github.com/pblcc/twitter-rt-bot" in
  err.

(** [main.py], lines 87-125. *)
Definition to_iso_code (d : nat) (language : string) : M string :=
  match d with
  | O => raise recursion_error
  | S d' =>
      try_except
        (dict_index languages language)
        [ (is_KeyError, fun _ =>
             let err := language_error language in
             log d' ("Can't find the language requested: " ++ language) "error" ;;
             raise (Exn KeyError err));
          (is_Exception, fun e =>
             log_undefined_error d' e ;; ret "") ]
  end.

Definition result_types : list string := ["mixed"; "recent"; "popular"].

(** [main.py], lines 128-145. *)
Definition is_valid_result (d : nat) (result_type : string) : M string :=
  match d with
  | O => raise recursion_error
  | S d' =>
      let r := strip result_type in
      if existsb (String.eqb r) result_types then ret r
      else
        let err :=
          "Sorry, but the result type should be: 'mixed', 'recent' or 'popular', you requested '"
          ++ r ++ "'" in
        log d' "Invalid result type from the configuration" "error" ;;
        raise (Exn KeyError err)
  end.

(** *** The module's body.  [d] is the number of frames left for the
    functions it calls. *)

(** Lines 148-157: load the configuration. *)
Definition load_configuration (d : nat) : M unit :=
  try_except
    (doc <- lift (read_configuration env) ;;
     modify_globals (set_configuration doc))
    [ (is_FileNotFoundError, fun _ =>
         let err := "We could not find the configuration file (" ++
                    CONFIGURATION_ROUTE ++
                    "), remember to run from the root..." in
         log d err "error" ;;
         raise (Exn FileNotFoundError err));
      (is_Exception, fun e => log_undefined_error d e) ].

(** Lines 160-171: extract the credentials. *)
Definition extract_credentials (d : nat) : M unit :=
  modify_globals (set_CONSUMER_KEY (JStr "")) ;;
  modify_globals (set_CONSUMER_SECRET (JStr "")) ;;
  modify_globals (set_ACCESS_TOKEN (JStr "")) ;;
  modify_globals (set_ACCESS_TOKEN_SECRET (JStr "")) ;;
  try_except
    (cfg <- get_configuration ;;
     credentials <- lift (getitem cfg "credentials") ;;
     k <- lift (getitem credentials "consumer-key") ;;
     modify_globals (set_CONSUMER_KEY k) ;;
     s <- lift (getitem credentials "consumer-secret") ;;
     modify_globals (set_CONSUMER_SECRET s))
    [ (is_KeyError, fun _ =>
         let err := "Internal key error when using the credentials..." in
         log d err "error" ;;
         raise (Exn KeyError err));
      (is_Exception, fun e => log_undefined_error d e) ].

(** The three tweepy calls of lines 176-178. *)
Definition tweepy_OAuthHandler (consumer_key consumer_secret : json)
  : M auth_handler :=
  record_call (CallOAuthHandler consumer_key consumer_secret) ;;
  match OAuthHandler_raises env consumer_key consumer_secret with
  | Some e => raise e
  | None => ret {| ah_consumer_key := consumer_key;
                   ah_consumer_secret := consumer_secret;
                   ah_access_token := None |}
  end.

Definition tweepy_set_access_token (a : auth_handler) (key secret : json)
  : M auth_handler :=
  record_call (CallSetAccessToken key secret) ;;
  match set_access_token_raises env key secret with
  | Some e => raise e
  | None => ret {| ah_consumer_key := ah_consumer_key a;
                   ah_consumer_secret := ah_consumer_secret a;
                   ah_access_token := Some (key, secret) |}
  end.

Definition tweepy_api (a : auth_handler) : M api_handle :=
  record_call (CallApi a) ;;
  match api_raises env a with
  | Some e => raise e
  | None => ret (ApiHandle a)
  end.

(** Lines 174-180: build the client. *)
Definition create_api (d : nat) : M unit :=
  modify_globals (set_auth None) ;;
  modify_globals (set_api None) ;;
  try_except
    (k <- get CONSUMER_KEY ;;
     s <- get CONSUMER_SECRET ;;
     a <- tweepy_OAuthHandler k s ;;
     modify_globals (set_auth (Some a)) ;;
     t <- get ACCESS_TOKEN ;;
     ts <- get ACCESS_TOKEN_SECRET ;;
     a <- tweepy_set_access_token a t ts ;;
     modify_globals (set_auth (Some a)) ;;
     h <- tweepy_api a ;;
     modify_globals (set_api (Some h)))
    [ (is_Exception, fun e => log_undefined_error d e) ].

(** Lines 184-195: parse the query parameters. *)
Definition parse_query (d : nat) : M unit :=
  modify_globals (set_HASHTAG (JStr "")) ;;
  modify_globals (set_MAX_TWEETS (JStr "")) ;;
  modify_globals (set_LANGUAGE (JStr "")) ;;
  modify_globals (set_RESULT_TYPE (JStr "")) ;;
  try_except
    (cfg <- get_configuration ;;
     h <- lift (getitem cfg "hashtag") ;;
     modify_globals (set_HASHTAG h) ;;
     cfg <- get_configuration ;;
     m <- lift (getitem cfg "max-tweets") ;;
     modify_globals (set_MAX_TWEETS m) ;;
     cfg <- get_configuration ;;
     l <- lift (getitem cfg "language") ;;
     l <- lift (call_lower l) ;;
     code <- to_iso_code d l ;;
     modify_globals (set_LANGUAGE (JStr code)) ;;
     cfg <- get_configuration ;;
     r <- lift (getitem cfg "result-type") ;;
     r <- lift (call_lower r) ;;
     r <- is_valid_result d r ;;
     modify_globals (set_RESULT_TYPE (JStr r)))
    [ (is_KeyError, fun _ =>
         let err := "Can't parse the configuration for querying the tweets..." in
         log d err "error" ;;
         raise (Exn KeyError err));
      (is_Exception, fun e => log_undefined_error d e) ].

(** The dict built at lines 202-206. *)
Definition current_tweet (t : status) : tweet :=
  {| tw_id := st_id t; tw_created_at := st_created_at t; tw_text := st_text t |}.

(** [tweets.append(x)] *)
Definition tweets_append (x : tweet) : M unit :=
  modify_globals (fun g => set_tweets (tweets g ++ [x]) g).

(** Lines 198-209: fetch the tweets. *)
Definition fetch_tweets : M unit :=
  modify_globals (set_tweets []) ;;
  try_except
    (a <- get api ;;
     match a with
     | None =>
         raise (Exn AttributeError
                  (fault_text env (NoAttribute "NoneType" "search")))
     | Some h =>
         q <- get HASHTAG ;;
         n <- get MAX_TWEETS ;;
         record_call (CallSearch q n) ;;
         let scrapper := search_items env h q n in
         for_each (fst scrapper) (fun t => tweets_append (current_tweet t)) ;;
         match snd scrapper with
         | Some e => raise e
         | None => ret tt
         end
     end)
    [ (is_anything, fun _ => ret tt) ].

(** Lines 148-209. *)
Definition module_body (d : nat) : M unit :=
  load_configuration d ;;
  extract_credentials d ;;
  create_api d ;;
  parse_query d ;;
  fetch_tweets.

(** Lines 211-215, run when the file is the main program. *)
Definition main_block (d : nat) : M unit :=
  log d "This is a title for the logs" "title" ;;
  log d "This is some information that has to be written at the logs" "info" ;;
  log d "This is an error" "error" ;;
  log d "This Is Weird" "info".

Definition main (d : nat) : M unit := module_body d ;; main_block d.

End Script.

(** ** Vocabulary for the statements *)

(** The text [get_current_time] returns when called in world [w]: the date of
    one reading of the clock and the time of the next. *)
Definition timestamp (env : Env) (w : World) : string :=
  date_text (clock env (ticks w)) ++ " at " ++
  time_text (clock env (S (ticks w))).

(** The world after one call of the logger wrote [line]: the log grew by a
    line feed, the timestamp, a bar and [line]; the clock was read twice. *)
Definition with_line (env : Env) (w : World) (line : string) : World :=
  {| logs := logs w ++ nl ++ timestamp env w ++ " | " ++ line;
     ticks := S (S (ticks w));
     calls := calls w;
     globals := globals w |}.

(** What the logger does with its [log_type] argument before anything else. *)
Definition normalize (log_type : string) : string := strip (lower log_type).

Definition internal_key_error : string :=
  "Internal key error when trying to log an error inside the script".

(** An environment and a world for the examples: a clock that stands still,
    a document, two statuses, tweepy calls that succeed. *)
Definition demo_clock (n : nat) : clock_reading :=
  {| date_text := "08/03/2021"; time_text := "12:00:00" |}.

Definition demo_credentials : json :=
  JDict [("consumer-key", JStr "key"); ("consumer-secret", JStr "secret");
         ("access-token", JStr "token");
         ("access-token-secret", JStr "token-secret")].

Definition demo_configuration : json :=
  JDict [("credentials", demo_credentials); ("hashtag", JStr "#test");
         ("max-tweets", JInt 5); ("language", JStr "Spanish");
         ("result-type", JStr " recent ")].

Definition demo_statuses : list status :=
  [ {| st_id := 1; st_created_at := "2021-03-08 10:00:00"; st_text := "one" |};
    {| st_id := 2; st_created_at := "2021-03-08 10:00:01"; st_text := "two" |} ].

(** The texts of CPython 3.11. *)
Definition cpython_text (f : fault) : string :=
  match f with
  | RecursionLimit =>
      "maximum recursion depth exceeded while calling a Python object"
  | UnboundName name => "name '" ++ name ++ "' is not defined"
  | BadSubscript (JList _) => "list indices must be integers or slices, not str"
  | BadSubscript (JStr _) => "string indices must be integers, not 'str'"
  | BadSubscript v => "'" ++ type_name v ++ "' object is not subscriptable"
  | NoAttribute type attr =>
      "'" ++ type ++ "' object has no attribute '" ++ attr ++ "'"
  end.

(** The log store opens at every attempt. *)
Definition writable (env : Env) : Prop := forall n, logs_io env n = None.

(** The log store gives the same answer at every attempt. *)
Definition steady (env : Env) : Prop :=
  forall n m, logs_io env n = logs_io env m.

Definition env_with (doc : json) (io : option exn) (ending : option exn) : Env :=
  {| clock := demo_clock;
     logs_io := fun _ => io;
     fault_text := cpython_text;
     read_configuration := Ok doc;
     OAuthHandler_raises := fun _ _ => None;
     set_access_token_raises := fun _ _ => None;
     api_raises := fun _ => None;
     search_items := fun _ _ _ => (demo_statuses, ending) |}.

Definition demo_env : Env := env_with demo_configuration None None.

Definition fresh_globals : Globals :=
  {| configuration := None; CONSUMER_KEY := JNull; CONSUMER_SECRET := JNull;
     ACCESS_TOKEN := JNull; ACCESS_TOKEN_SECRET := JNull; auth := None;
     api := None; HASHTAG := JNull; MAX_TWEETS := JNull; LANGUAGE := JNull;
     RESULT_TYPE := JNull; tweets := [] |}.

Definition fresh_world : World :=
  {| logs := "old"; ticks := 0; calls := []; globals := fresh_globals |}.

(** The text of the [KeyError] of line 167. *)
Definition credentials_error : string :=
  "Internal key error when using the credentials...".

(** The document lacks the credentials record, or the record lacks one of
    its two keys. *)
Definition credentials_missing (doc : list (string * json)) : Prop :=
  dict_get doc "credentials" = None \/
  exists c,
    dict_get doc "credentials" = Some (JDict c) /\
    (dict_get c "consumer-key" = None \/ dict_get c "consumer-secret" = None).

(** The member [k] of the document is a string, or is absent. *)
Definition str_member (doc : list (string * json)) (k : string) : Prop :=
  match dict_get doc k with
  | Some (JStr _) | None => True
  | Some _ => False
  end.

(** What the docstring of [to_iso_code] promises (the iso code of the
    language): the ISO 639-1 code of each language named by the table. *)
Definition iso_639_1 : list (string * string) :=
  [("arab", "ar"); ("greek", "el"); ("german", "de"); ("english", "en");
   ("spanish", "es"); ("french", "fr"); ("italian", "it"); ("korean", "ko");
   ("russian", "ru"); ("chines", "zh")].

(** The language of the document, lower-cased, is a name of the table. *)
Definition language_resolves (doc : json) : bool :=
  match doc with
  | JDict d =>
      match dict_get d "language" with
      | Some (JStr s) =>
          match dict_get languages (lower s) with
          | Some _ => true
          | None => false
          end
      | _ => false
      end
  | _ => false
  end.

(** The result type of the document, lower-cased and trimmed, is one of the
    three. *)
Definition result_type_valid (doc : json) : bool :=
  match doc with
  | JDict d =>
      match dict_get d "result-type" with
      | Some (JStr s) => existsb (String.eqb (strip (lower s))) result_types
      | _ => false
      end
  | _ => false
  end.

(** The document of the examples with another language member. *)
Definition document_with_language (language : json) : list (string * json) :=
  [("credentials", demo_credentials); ("hashtag", JStr "#test");
   ("max-tweets", JInt 5); ("language", language);
   ("result-type", JStr "recent")].

(** * Properties *)

(** ** The logger *)

Section LoggerFacts.

Variable env : Env.

Lemma get_current_time_S (d : nat) (w : World) :
  get_current_time env (S d) w =
  (Ok (timestamp env w),
   {| logs := logs w; ticks := S (S (ticks w)); calls := calls w;
      globals := globals w |}).
Proof. reflexivity. Qed.

Lemma append_logs_ok (message : string) (w : World) :
  writable env ->
  append_logs env message w =
  (Ok tt, {| logs := logs w ++ message; ticks := ticks w; calls := calls w;
             globals := globals w |}).
Proof. intros H. unfold append_logs. now rewrite (H (ticks w)). Qed.

(** A kind the table knows: one line with the bracketed tag is written. *)
Lemma log_tagged (d : nat) (msg kind t : string) (w : World) :
  writable env ->
  dict_get types_hash (normalize kind) = Some t ->
  log env (S (S d)) msg kind w = (Ok tt, with_line env w ("[" ++ t ++ "]: " ++ msg)).
Proof.
  intros Hio Ht. unfold normalize in Ht.
  assert (Hnt : (strip (lower kind) =? "title") = false).
  { destruct (strip (lower kind) =? "title") eqn:E; [|reflexivity].
    apply String.eqb_eq in E. rewrite E in Ht. discriminate. }
  cbn [log]. unfold bind at 1. unfold try_except at 1.
  rewrite Hnt. cbn [negb]. unfold bind at 1. unfold dict_index. rewrite Ht.
  unfold ret at 1. unfold ret at 1.
  unfold bind at 1. rewrite get_current_time_S.
  unfold try_except. rewrite append_logs_ok by assumption.
  cbn [logs ticks calls globals]. reflexivity.
Qed.

(** The title kind: the message is written in capitals, with no tag. *)
Lemma log_title (d : nat) (msg kind : string) (w : World) :
  writable env ->
  normalize kind = "title" ->
  log env (S (S d)) msg kind w = (Ok tt, with_line env w (upper msg)).
Proof.
  intros Hio Ht. unfold normalize in Ht.
  cbn [log]. rewrite Ht. cbn [String.eqb Ascii.eqb Bool.eqb negb].
  unfold bind at 1. unfold try_except at 1. unfold ret at 1.
  unfold bind at 1. rewrite get_current_time_S.
  unfold try_except. rewrite append_logs_ok by assumption.
  cbn [logs ticks calls globals]. reflexivity.
Qed.

(** Any other kind: the logger logs its own failure as an error and raises
    [KeyError], unless logging the failure raised already. *)
Lemma log_unknown (d : nat) (msg kind : string) (w : World) :
  dict_get types_hash (normalize kind) = None ->
  normalize kind <> "title" ->
  log env (S d) msg kind w =
  match log env d internal_key_error "error" w with
  | (Ok _, w') => (Raise (Exn KeyError internal_key_error), w')
  | (Raise e, w') => (Raise e, w')
  end.
Proof.
  intros Hk Hnt. unfold normalize in Hk, Hnt.
  apply String.eqb_neq in Hnt.
  cbn [log]. rewrite Hnt. cbn [negb].
  unfold bind at 1. unfold try_except at 1. unfold bind at 1.
  unfold dict_index. rewrite Hk. unfold raise at 1.
  cbn [dispatch is_KeyError class_of exn_class_eqb].
  unfold bind at 1. fold internal_key_error.
  destruct (log env d internal_key_error "error" w) as [[u|e] w']; reflexivity.
Qed.

Lemma normalize_error : normalize "error" = "error".
Proof. reflexivity. Qed.

Lemma normalize_info : normalize "info" = "info".
Proof. reflexivity. Qed.

(** The logger looks at its kind only through [normalize]. *)
Lemma log_normalized (d : nat) (msg kind kind' : string) (w : World) :
  normalize kind = normalize kind' ->
  log env d msg kind w = log env d msg kind' w.
Proof.
  intros H. unfold normalize in H. destruct d as [|d]; [reflexivity|].
  cbn [log]. rewrite H. reflexivity.
Qed.

End LoggerFacts.

Lemma types_hash_unknown (k : string) :
  k <> "info" -> k <> "error" -> dict_get types_hash k = None.
Proof.
  intros Hi He. unfold types_hash. cbn [dict_get].
  destruct ("info" =? k) eqn:E1.
  { apply String.eqb_eq in E1. congruence. }
  destruct ("error" =? k) eqn:E2.
  { apply String.eqb_eq in E2. congruence. }
  reflexivity.
Qed.

(** C5. With a log that can be written, [log] appends exactly one line and
    returns.  The line is a line feed (character 10), the timestamp, a bar,
    and then: the message behind [[I]: ] for the kind info; the message
    behind [[E]: ] for the kind error; for the kind title the message in
    capitals with no tag (stated for every message that has neither the
    micro sign nor the y with diaeresis, whose capitals no [string] can
    hold).  Nothing else of the world changes but the clock, read twice.
    The last part shows the capitals on one message: small letters, an
    accented letter (233 gives 201), the sharp s (223 gives SS) and a
    mark. *)
Theorem log_appends_one_line (env : Env) (d : nat) (msg : string) (w : World) :
  writable env ->
  2 <= d ->
  let stamp :=
    date_text (clock env (ticks w)) ++ " at " ++
    time_text (clock env (S (ticks w))) in
  let written (line : string) : World :=
    {| logs := logs w ++ String "010"%char (stamp ++ " | " ++ line);
       ticks := S (S (ticks w));
       calls := calls w;
       globals := globals w |} in
  log env d msg "info" w = (Ok tt, written ("[I]: " ++ msg)) /\
  log env d msg "error" w = (Ok tt, written ("[E]: " ++ msg)) /\
  (upper_exact msg = true ->
   log env d msg "title" w = (Ok tt, written (upper msg))) /\
  log env d ("caf" ++ String "233"%char (String "223"%char "e!")) "title" w =
    (Ok tt, written ("CAF" ++ String "201"%char "SSE!")).
Proof.
  intros Hio Hd stamp written.
  destruct d as [|[|d]]; [lia | lia |].
  repeat split.
  - now rewrite (log_tagged env d msg "info" "I" w Hio).
  - now rewrite (log_tagged env d msg "error" "E" w Hio).
  - intros _. now rewrite (log_title env d msg "title" w Hio).
  - now rewrite (log_title env d _ "title" w Hio).
Qed.

Lemma log_appends_one_line_witness :
  let written (line : string) : World :=
    {| logs := "old" ++ String "010"%char ("08/03/2021 at 12:00:00 | " ++ line);
       ticks := 2; calls := []; globals := fresh_globals |} in
  log demo_env 2 "abc" "info" fresh_world = (Ok tt, written "[I]: abc") /\
  log demo_env 2 "abc" "error" fresh_world = (Ok tt, written "[E]: abc") /\
  (upper_exact "abc" = true ->
   log demo_env 2 "abc" "title" fresh_world = (Ok tt, written "ABC")) /\
  log demo_env 2 ("caf" ++ String "233"%char (String "223"%char "e!")) "title"
      fresh_world =
    (Ok tt, written ("CAF" ++ String "201"%char "SSE!")).
Proof.
  cbv zeta.
  exact (log_appends_one_line demo_env 2 "abc" fresh_world
           (fun n => eq_refl) (le_n 2)).
Defined.

(** The three lines of C5 on a log that held [old]. *)
Example log_lines_demo :
  logs (snd (log demo_env 2 "abc" "info" fresh_world)) =
    "old" ++ nl ++ "08/03/2021 at 12:00:00 | [I]: abc" /\
  logs (snd (log demo_env 2 "abc" "error" fresh_world)) =
    "old" ++ nl ++ "08/03/2021 at 12:00:00 | [E]: abc" /\
  logs (snd (log demo_env 2 "abc" "title" fresh_world)) =
    "old" ++ nl ++ "08/03/2021 at 12:00:00 | ABC".
Proof. repeat split. Qed.

(** C6, as the code has it.  A kind whose lower-cased and trimmed form is
    none of info, error and title makes [log] raise a [KeyError] (a
    [LookupError]); before it raises, the logger has written one error line
    that describes the internal key failure. *)
Theorem log_unknown_kind_raises
  (env : Env) (d : nat) (msg kind : string) (w : World) :
  writable env ->
  3 <= d ->
  normalize kind <> "info" ->
  normalize kind <> "error" ->
  normalize kind <> "title" ->
  log env d msg kind w =
    (Raise (Exn KeyError internal_key_error),
     with_line env w ("[E]: " ++ internal_key_error)) /\
  is_LookupError (Exn KeyError internal_key_error) = true.
Proof.
  intros Hio Hd Hi He Ht.
  destruct d as [|[|[|d]]]; try lia.
  split; [|reflexivity].
  rewrite log_unknown by auto using types_hash_unknown.
  now rewrite (log_tagged env d internal_key_error "error" "E" w Hio).
Qed.

Lemma log_unknown_kind_raises_witness :
  log demo_env 3 "X" "bogus" fresh_world =
    (Raise (Exn KeyError internal_key_error),
     with_line demo_env fresh_world ("[E]: " ++ internal_key_error)) /\
  is_LookupError (Exn KeyError internal_key_error) = true.
Proof.
  apply (log_unknown_kind_raises demo_env 3 "X" "bogus" fresh_world);
    [intros n; reflexivity | lia | | | ]; vm_compute; discriminate.
Defined.

(** C6 as stated fails: the kind [INFO] is none of the three strings info,
    error and title, and [log] returns after writing an info line. *)
Lemma log_unknown_kind_counterexample :
  "INFO" <> "info" /\ "INFO" <> "error" /\ "INFO" <> "title" /\
  log demo_env 3 "X" "INFO" fresh_world =
    (Ok tt, with_line demo_env fresh_world "[I]: X").
Proof. repeat split; discriminate. Qed.

(** C9. The kind is lower-cased and trimmed before it is looked at: [Info],
    [ ERROR ] and [ Title] do what info, error and title do, and two kinds
    with the same normal form do the same. *)
Theorem log_kind_is_normalized (env : Env) (d : nat) (msg : string) (w : World) :
  log env d msg "Info" w = log env d msg "info" w /\
  log env d msg " ERROR " w = log env d msg "error" w /\
  log env d msg " Title" w = log env d msg "title" w /\
  forall kind kind',
    strip (lower kind) = strip (lower kind') ->
    log env d msg kind w = log env d msg kind' w.
Proof.
  repeat split; try (apply log_normalized; reflexivity).
  intros kind kind' H. now apply log_normalized.
Qed.

Lemma log_kind_is_normalized_witness :
  strip (lower "  iNfO ") = strip (lower "info") /\
  log demo_env 2 "X" "  iNfO " fresh_world = log demo_env 2 "X" "info" fresh_world.
Proof.
  split; [reflexivity|].
  apply (proj2 (proj2 (proj2 (log_kind_is_normalized demo_env 2 "X" fresh_world))));
    reflexivity.
Defined.

(** C10. When the kind is unknown the message of the call leaves no trace:
    what [log] returns and the world it leaves are the same for every
    message, and with a log that can be written the log grew by the line of
    the internal failure only. *)
Theorem log_unknown_kind_drops_message
  (env : Env) (d : nat) (msg kind : string) (w : World) :
  normalize kind <> "info" ->
  normalize kind <> "error" ->
  normalize kind <> "title" ->
  (forall msg', log env d msg' kind w = log env d msg kind w) /\
  (writable env -> 3 <= d ->
   exists e w',
     log env d msg kind w = (Raise e, w') /\
     logs w' =
       logs w ++ nl ++ timestamp env w ++ " | [E]: " ++ internal_key_error).
Proof.
  intros Hi He Ht. split.
  - intros msg'. destruct d as [|d]; [reflexivity|].
    now rewrite !log_unknown by auto using types_hash_unknown.
  - intros Hio Hd. destruct d as [|[|[|d]]]; try lia.
    exists (Exn KeyError internal_key_error),
           (with_line env w ("[E]: " ++ internal_key_error)).
    split; [|reflexivity].
    rewrite log_unknown by auto using types_hash_unknown.
    now rewrite (log_tagged env d internal_key_error "error" "E" w Hio).
Qed.

Lemma log_unknown_kind_drops_message_witness :
  (forall msg', log demo_env 3 msg' "bogus" fresh_world =
                log demo_env 3 "X" "bogus" fresh_world) /\
  (exists e w',
     log demo_env 3 "X" "bogus" fresh_world = (Raise e, w') /\
     logs w' =
       logs fresh_world ++ nl ++ timestamp demo_env fresh_world ++
       " | [E]: " ++ internal_key_error).
Proof.
  destruct (log_unknown_kind_drops_message demo_env 3 "X" "bogus" fresh_world)
    as [Hsame Hline]; try (vm_compute; discriminate).
  split; [exact Hsame | apply Hline; [intros n; reflexivity | lia]].
Defined.

(** ** Text that contains a text *)

Lemma starts_with_split (p s : string) :
  starts_with p s = true -> exists post, s = p ++ post.
Proof.
  revert s. induction p as [|a p IH]; intros s H.
  - now exists s.
  - destruct s as [|b s]; [discriminate|]. cbn in H.
    apply andb_true_iff in H. destruct H as [Hab Hps].
    apply Ascii.eqb_eq in Hab. subst b.
    destruct (IH s Hps) as [post ->]. now exists post.
Qed.

Lemma containsb_contains (needle hay : string) :
  containsb needle hay = true -> contains needle hay.
Proof.
  induction hay as [|c hay IH]; cbn [containsb]; intros H.
  - rewrite orb_false_r in H. destruct (starts_with_split _ _ H) as [post E].
    now exists "", post.
  - apply orb_true_iff in H. destruct H as [H|H].
    + destruct (starts_with_split _ _ H) as [post E]. now exists "", post.
    + destruct (IH H) as (pre & post & E).
      exists (String c pre), post. cbn. now rewrite E.
Qed.

Lemma append_assoc (a b c : string) : (a ++ b) ++ c = a ++ b ++ c.
Proof. induction a as [|x a IH]; cbn; [reflexivity | now rewrite IH]. Qed.

Lemma contains_app_l (n a b : string) : contains n a -> contains n (a ++ b).
Proof.
  intros (pre & post & ->). exists pre, (post ++ b).
  now rewrite !append_assoc.
Qed.

Lemma contains_app_r (n a b : string) : contains n b -> contains n (a ++ b).
Proof.
  intros (pre & post & ->). exists (a ++ pre), post.
  now rewrite !append_assoc.
Qed.

(** ** The language resolver and the result-type validator *)

Section ResolverFacts.

Variable env : Env.

Lemma to_iso_code_supported (d : nat) (name code : string) (w : World) :
  dict_get languages name = Some code ->
  to_iso_code env (S d) name w = (Ok code, w).
Proof.
  intros H. cbn [to_iso_code]. unfold try_except, dict_index.
  now rewrite H.
Qed.

Lemma to_iso_code_unsupported (d : nat) (name : string) (w : World) :
  writable env ->
  dict_get languages name = None ->
  to_iso_code env (S (S (S d))) name w =
  (Raise (Exn KeyError (language_error name)),
   with_line env w ("[E]: Can't find the language requested: " ++ name)).
Proof.
  intros Hio H. cbn [to_iso_code]. unfold try_except, dict_index.
  rewrite H. unfold raise at 1.
  cbn [dispatch is_KeyError class_of exn_class_eqb].
  unfold bind.
  now rewrite (log_tagged env d _ "error" "E" w Hio).
Qed.

Lemma is_valid_result_valid (d : nat) (result_type : string) (w : World) :
  existsb (String.eqb (strip result_type)) result_types = true ->
  is_valid_result env (S d) result_type w = (Ok (strip result_type), w).
Proof. intros H. cbn [is_valid_result]. now rewrite H. Qed.

Lemma is_valid_result_invalid (d : nat) (result_type : string) (w : World) :
  writable env ->
  existsb (String.eqb (strip result_type)) result_types = false ->
  is_valid_result env (S (S (S d))) result_type w =
  (Raise (Exn KeyError
     ("Sorry, but the result type should be: 'mixed', 'recent' or 'popular', you requested '"
      ++ strip result_type ++ "'")),
   with_line env w "[E]: Invalid result type from the configuration").
Proof.
  intros Hio H. cbn [is_valid_result]. rewrite H. unfold bind.
  now rewrite (log_tagged env d _ "error" "E" w Hio).
Qed.

End ResolverFacts.

Lemma languages_lookup (name code : string) :
  In (name, code) languages -> dict_get languages name = Some code.
Proof.
  unfold languages. cbn [In].
  intros H.
  repeat (destruct H as [H|H]; [injection H as <- <-; reflexivity|]).
  contradiction.
Qed.

Lemma languages_no_lookup (name : string) :
  (forall code, ~ In (name, code) languages) -> dict_get languages name = None.
Proof.
  intros H. destruct (dict_get languages name) as [code|] eqn:E; [|reflexivity].
  exfalso. apply (H code). clear H.
  unfold languages in *. cbn [dict_get] in E. cbn [In].
  repeat match type of E with
  | (if ?k =? name then _ else _) = _ =>
      let Ek := fresh "Ek" in
      destruct (k =? name) eqn:Ek;
      [ apply String.eqb_eq in Ek; subst name; injection E as <-; tauto | ]
  end.
  discriminate.
Qed.

Lemma language_error_lists (name supported : string) :
  In supported (map fst languages) -> contains supported (language_error name).
Proof.
  intros H. unfold language_error.
  apply contains_app_l, contains_app_l, contains_app_r.
  apply containsb_contains.
  cbn [languages map fst In] in H.
  repeat (destruct H as [H|H]; [subst supported; vm_compute; reflexivity|]).
  contradiction.
Qed.

Lemma languages_two_letters (name code : string) :
  In (name, code) languages -> String.length code = 2.
Proof.
  unfold languages. cbn [In]. intros H.
  repeat (destruct H as [H|H]; [injection H as <- <-; reflexivity|]).
  contradiction.
Qed.

Lemma languages_miss (name : string) :
  ~ In name (map fst languages) -> dict_get languages name = None.
Proof.
  intros H. apply languages_no_lookup. intros code Hin. apply H.
  apply (in_map fst) in Hin. exact Hin.
Qed.

(** C3. [to_iso_code] against the codes its docstring promises.  For nine of
    the ten names of the table the resolver returns the ISO 639-1 code, two
    letters long, and nothing is logged.  For the tenth, [chines], it
    returns [zn], which is not the ISO code of Chinese ([zh]).  Any name
    outside the ten makes [to_iso_code] write one error line and then raise
    a [KeyError] (a [LookupError]) whose text contains each of the ten
    names. *)
Theorem to_iso_code_resolves (env : Env) (d : nat) (w : World) :
  (forall name code,
     In (name, code) iso_639_1 ->
     name <> "chines" ->
     1 <= d ->
     to_iso_code env d name w = (Ok code, w) /\ String.length code = 2) /\
  (1 <= d ->
   In ("chines", "zh") iso_639_1 /\
   to_iso_code env d "chines" w = (Ok "zn", w)) /\
  (forall name,
     ~ In name ["arab"; "greek"; "german"; "english"; "spanish"; "french";
                "italian"; "korean"; "russian"; "chines"] ->
     writable env ->
     3 <= d ->
     to_iso_code env d name w =
       (Raise (Exn KeyError (language_error name)),
        with_line env w ("[E]: Can't find the language requested: " ++ name)) /\
     is_LookupError (Exn KeyError (language_error name)) = true /\
     forall supported,
       In supported ["arab"; "greek"; "german"; "english"; "spanish"; "french";
                     "italian"; "korean"; "russian"; "chines"] ->
       contains supported (language_error name)).
Proof.
  split; [|split].
  - intros name code Hin Hname Hd. destruct d as [|d]; [lia|].
    unfold iso_639_1 in Hin. cbn [In] in Hin.
    repeat (destruct Hin as [Hin|Hin];
            [injection Hin as <- <-;
             first [ now contradiction Hname
                   | split; [now apply to_iso_code_supported | reflexivity] ]|]).
    contradiction.
  - intros Hd. destruct d as [|d]; [lia|]. split.
    + unfold iso_639_1. cbn [In]. do 9 right. left. reflexivity.
    + now apply to_iso_code_supported.
  - intros name Hout Hio Hd. destruct d as [|[|[|d]]]; try lia.
    split; [|split; [reflexivity|]].
    + now apply to_iso_code_unsupported, languages_miss.
    + intros supported. apply language_error_lists.
Qed.

Lemma to_iso_code_resolves_witness :
  (to_iso_code demo_env 3 "spanish" fresh_world = (Ok "es", fresh_world) /\
   String.length "es" = 2) /\
  (In ("chines", "zh") iso_639_1 /\
   to_iso_code demo_env 3 "chines" fresh_world = (Ok "zn", fresh_world)) /\
  (to_iso_code demo_env 3 "chinese" fresh_world =
     (Raise (Exn KeyError (language_error "chinese")),
      with_line demo_env fresh_world
        ("[E]: Can't find the language requested: " ++ "chinese")) /\
   is_LookupError (Exn KeyError (language_error "chinese")) = true /\
   forall supported,
     In supported ["arab"; "greek"; "german"; "english"; "spanish"; "french";
                   "italian"; "korean"; "russian"; "chines"] ->
     contains supported (language_error "chinese")).
Proof.
  destruct (to_iso_code_resolves demo_env 3 fresh_world) as [Hin [Hzn Hout]].
  split; [|split].
  - apply Hin; [cbn; tauto | discriminate | lia].
  - apply Hzn. lia.
  - apply Hout; [ | intros n; reflexivity | lia].
    intros H. cbn in H.
    repeat (destruct H as [H|H]; [discriminate H|]). exact H.
Defined.

(** The ten answers of the resolver, one by one. *)
Example to_iso_code_table :
  map (fun name => fst (to_iso_code demo_env 1 name fresh_world))
      ["arab"; "greek"; "german"; "english"; "spanish"; "french";
       "italian"; "korean"; "russian"; "chines"] =
  map Ok ["ar"; "el"; "de"; "en"; "es"; "fr"; "it"; "ko"; "ru"; "zn"].
Proof. reflexivity. Qed.

(** The caller lower-cases the name first: [Spanish] resolves to [es]. *)
Example to_iso_code_spanish :
  to_iso_code demo_env 1 (lower "Spanish") fresh_world = (Ok "es", fresh_world).
Proof. reflexivity. Qed.

(** The text raised for an unsupported name. *)
Example language_error_text :
  language_error "klingon" =
  "Sorry, but we can't get the language 'klingon'..." ++ nl ++
  "We currently have support for the following languages:arab" ++ nl ++
  "   -greek" ++ nl ++ "   -german" ++ nl ++ "   -english" ++ nl ++
  "   -spanish" ++ nl ++ "   -french" ++ nl ++ "   -italian" ++ nl ++
  "   -korean" ++ nl ++ "   -russian" ++ nl ++
  "   -chinesIf you think that your language should be supported, you can create a pr on GitHub: "
  ++ nl ++ " github.com/pblcc/twitter-rt-bot".
Proof. reflexivity. Qed.

Lemma result_types_member (r : string) :
  existsb (String.eqb r) result_types = true <->
  r = "mixed" \/ r = "recent" \/ r = "popular".
Proof.
  unfold result_types. cbn [existsb]. rewrite orb_false_r, !orb_true_iff.
  rewrite !String.eqb_eq. tauto.
Qed.

(** C4. A string whose trimmed form is mixed, recent or popular is
    returned trimmed, and nothing is logged.  Any other string makes
    [is_valid_result] write one error line and then raise a [KeyError] (a
    [LookupError]).  The last part shows the trimming on one string: a
    no-break space and a space before [recent], a tab and a line feed
    behind it. *)
Theorem is_valid_result_validates (env : Env) (d : nat) (w : World) :
  (forall s,
     strip s = "mixed" \/ strip s = "recent" \/ strip s = "popular" ->
     1 <= d ->
     is_valid_result env d s w = (Ok (strip s), w)) /\
  (forall s,
     strip s <> "mixed" -> strip s <> "recent" -> strip s <> "popular" ->
     writable env ->
     3 <= d ->
     exists e,
       is_valid_result env d s w =
         (Raise e,
          with_line env w "[E]: Invalid result type from the configuration") /\
       is_LookupError e = true) /\
  (1 <= d ->
   is_valid_result env d
     (String "160"%char (" recent" ++ String "009"%char (String "010"%char ""))) w =
     (Ok "recent", w)).
Proof.
  assert (Hin : forall s,
     strip s = "mixed" \/ strip s = "recent" \/ strip s = "popular" ->
     1 <= d ->
     is_valid_result env d s w = (Ok (strip s), w)).
  { intros s Hs Hd. destruct d as [|d]; [lia|].
    now apply is_valid_result_valid, result_types_member. }
  split; [exact Hin | split].
  - intros s Hm Hr Hp Hio Hd. destruct d as [|[|[|d]]]; try lia.
    assert (E : existsb (String.eqb (strip s)) result_types = false).
    { destruct (existsb (String.eqb (strip s)) result_types) eqn:E; [|reflexivity].
      apply result_types_member in E. tauto. }
    rewrite (is_valid_result_invalid env d s w Hio E).
    eexists. split; reflexivity.
  - intros Hd. rewrite Hin; [reflexivity | right; left; reflexivity | exact Hd].
Qed.

Lemma is_valid_result_validates_witness :
  is_valid_result demo_env 3 "  recent " fresh_world = (Ok "recent", fresh_world) /\
  (exists e,
     is_valid_result demo_env 3 "Recent" fresh_world =
       (Raise e,
        with_line demo_env fresh_world
          "[E]: Invalid result type from the configuration") /\
     is_LookupError e = true) /\
  is_valid_result demo_env 3
    (String "160"%char (" recent" ++ String "009"%char (String "010"%char "")))
    fresh_world =
    (Ok "recent", fresh_world).
Proof.
  destruct (is_valid_result_validates demo_env 3 fresh_world) as [Hin [Hout Hpad]].
  split; [|split].
  - apply (Hin "  recent "); [right; left; reflexivity | lia].
  - apply Hout; try (vm_compute; discriminate); [intros n; reflexivity | lia].
  - apply Hpad. lia.
Defined.

Example is_valid_result_trims :
  strip "  recent " = "recent" /\ strip (" a b" ++ nl) = "a b".
Proof. split; reflexivity. Qed.

(** The no-break space (160) and the next-line control (133) are trimmed
    like the space: a result type written behind one is accepted. *)
Example is_valid_result_trims_supplement :
  strip (String "160"%char "recent") = "recent" /\
  strip ("recent" ++ String "133"%char "") = "recent" /\
  is_valid_result demo_env 1 (String "160"%char "recent") fresh_world =
    (Ok "recent", fresh_world).
Proof. repeat split. Qed.

(** ** Fetching the tweets *)

Section FetchFacts.

Variable env : Env.

(** The loop of lines 201-207 appends one dict per status, in order, and
    touches nothing else. *)
Lemma for_each_appends (items : list status) (w : World) :
  for_each items (fun t => tweets_append (current_tweet t)) w =
  (Ok tt,
   {| logs := logs w; ticks := ticks w; calls := calls w;
      globals := set_tweets (tweets (globals w) ++ map current_tweet items)
                            (globals w) |}).
Proof.
  revert w. induction items as [|t items IH]; intros w.
  - cbn [for_each map]. unfold ret. rewrite app_nil_r.
    destruct w as [l t c g]. destruct g. reflexivity.
  - cbn [for_each map]. unfold bind at 1.
    unfold tweets_append at 1. unfold modify_globals at 1.
    rewrite IH. cbn [logs ticks calls globals tweets set_tweets].
    rewrite <- app_assoc. reflexivity.
Qed.

Lemma fetch_tweets_with_api (w : World) (h : api_handle) :
  api (globals w) = Some h ->
  fetch_tweets env w =
  (Ok tt,
   {| logs := logs w; ticks := ticks w;
      calls := calls w ++ [CallSearch (HASHTAG (globals w)) (MAX_TWEETS (globals w))];
      globals :=
        set_tweets
          (map current_tweet
             (fst (search_items env h (HASHTAG (globals w)) (MAX_TWEETS (globals w)))))
          (globals w) |}).
Proof.
  intros Hapi. unfold fetch_tweets.
  unfold bind at 1. unfold modify_globals at 1.
  unfold try_except. unfold bind at 1. unfold get at 1.
  cbn [globals api set_tweets]. rewrite Hapi.
  unfold bind at 1. unfold get at 1. unfold bind at 1. unfold get at 1.
  unfold bind at 1. unfold record_call at 1.
  cbn [globals logs ticks calls HASHTAG MAX_TWEETS set_tweets].
  unfold bind at 1. rewrite for_each_appends.
  cbn [globals logs ticks calls tweets set_tweets app].
  destruct (snd (search_items env h (HASHTAG (globals w)) (MAX_TWEETS (globals w))))
    as [e|]; reflexivity.
Qed.

End FetchFacts.

(** C1. When the cursor yields [N] statuses and then raises, whatever the
    exception, the fetch returns normally with exactly [N] dicts, one per
    status in the order they came, each holding the id, the creation time
    and the text of its status; the log is not written and the clock is not
    read. *)
Theorem fetch_tweets_suppresses
  (env : Env) (w : World) (h : api_handle) (items : list status) (e : exn)
  (N : nat) :
  api (globals w) = Some h ->
  search_items env h (HASHTAG (globals w)) (MAX_TWEETS (globals w)) =
    (items, Some e) ->
  length items = N ->
  exists w',
    fetch_tweets env w = (Ok tt, w') /\
    tweets (globals w') =
      map (fun t => {| tw_id := st_id t;
                       tw_created_at := st_created_at t;
                       tw_text := st_text t |}) items /\
    length (tweets (globals w')) = N /\
    logs w' = logs w /\
    ticks w' = ticks w.
Proof.
  intros Hapi Hitems HN.
  rewrite (fetch_tweets_with_api env w h Hapi). rewrite Hitems.
  eexists. split; [reflexivity|].
  cbn [globals tweets set_tweets fst logs ticks].
  split; [reflexivity|].
  rewrite length_map. auto.
Qed.

Lemma fetch_tweets_suppresses_witness :
  let env := env_with demo_configuration None
               (Some (Exn Exception_ "Rate limit exceeded")) in
  let h := ApiHandle {| ah_consumer_key := JStr "key";
                        ah_consumer_secret := JStr "secret";
                        ah_access_token := Some (JStr "", JStr "") |} in
  let w := {| logs := "old"; ticks := 0; calls := [];
              globals := set_api (Some h) fresh_globals |} in
  exists w',
    fetch_tweets env w = (Ok tt, w') /\
    tweets (globals w') =
      [ {| tw_id := 1; tw_created_at := "2021-03-08 10:00:00"; tw_text := "one" |};
        {| tw_id := 2; tw_created_at := "2021-03-08 10:00:01"; tw_text := "two" |} ] /\
    length (tweets (globals w')) = 2 /\
    logs w' = logs w /\
    ticks w' = ticks w.
Proof.
  cbv zeta.
  eapply (fetch_tweets_suppresses
            (env_with demo_configuration None
               (Some (Exn Exception_ "Rate limit exceeded")))
            _ _ demo_statuses);
    reflexivity.
Defined.

(** The bare [except] also swallows what is not an [Exception]. *)
Example fetch_tweets_swallows_interrupt :
  let env := env_with demo_configuration None
               (Some (Exn BaseException_ "KeyboardInterrupt")) in
  let h := ApiHandle {| ah_consumer_key := JStr "key";
                        ah_consumer_secret := JStr "secret";
                        ah_access_token := Some (JStr "", JStr "") |} in
  let w := {| logs := "old"; ticks := 0; calls := [];
              globals := set_api (Some h) fresh_globals |} in
  fst (fetch_tweets env w) = Ok tt /\
  tweets (globals (snd (fetch_tweets env w))) = map current_tweet demo_statuses.
Proof. split; reflexivity. Qed.

(** ** The module body *)

(** One step of symbolic execution of the script: the monad, the handlers
    and the assignments are computed; the functions of the script stay. *)
Ltac run_script :=
  cbv beta iota zeta delta
      [bind ret raise lift try_except dispatch get modify_globals record_call
       get_configuration getitem call_lower
       is_KeyError is_FileNotFoundError is_Exception is_anything
       class_of exn_class_eqb negb fst snd];
  cbn [logs ticks calls globals
       configuration CONSUMER_KEY CONSUMER_SECRET ACCESS_TOKEN
       ACCESS_TOKEN_SECRET auth api HASHTAG MAX_TWEETS LANGUAGE RESULT_TYPE
       tweets
       set_configuration set_CONSUMER_KEY set_CONSUMER_SECRET set_ACCESS_TOKEN
       set_ACCESS_TOKEN_SECRET set_auth set_api set_HASHTAG set_MAX_TWEETS
       set_LANGUAGE set_RESULT_TYPE set_tweets].

Section ModuleFacts.

Variable env : Env.

Lemma load_configuration_loaded (d : nat) (doc : json) (w : World) :
  read_configuration env = Ok doc ->
  load_configuration env d w =
  (Ok tt, {| logs := logs w; ticks := ticks w; calls := calls w;
             globals := set_configuration doc (globals w) |}).
Proof.
  intros H. unfold load_configuration, try_except, bind, lift.
  rewrite H. reflexivity.
Qed.

Lemma extract_credentials_missing
  (d : nat) (doc : list (string * json)) (w : World) :
  writable env ->
  configuration (globals w) = Some (JDict doc) ->
  credentials_missing doc ->
  exists w',
    extract_credentials env (S (S d)) w =
      (Raise (Exn KeyError credentials_error), w') /\
    logs w' = logs w ++ nl ++ timestamp env w ++ " | [E]: " ++ credentials_error /\
    calls w' = calls w.
Proof.
  intros Hio Hcfg Hmiss.
  unfold extract_credentials. run_script. rewrite Hcfg. run_script.
  destruct Hmiss as [Hc | (c & Hc & Hk)]; rewrite Hc; run_script.
  - rewrite (log_tagged env d _ "error" "E" _ Hio) by reflexivity.
    eexists. split; [reflexivity|]. split; reflexivity.
  - destruct (dict_get c "consumer-key") as [k|] eqn:Ek; run_script.
    + destruct Hk as [Hk|Hk]; [discriminate|]. rewrite Hk. run_script.
      rewrite (log_tagged env d _ "error" "E" _ Hio) by reflexivity.
      eexists. split; [reflexivity|]. split; reflexivity.
    + rewrite (log_tagged env d _ "error" "E" _ Hio) by reflexivity.
      eexists. split; [reflexivity|]. split; reflexivity.
Qed.

End ModuleFacts.

(** C7, as the code has it.  A document that is a JSON object without the
    credentials member, or whose credentials member is an object without
    consumer-key or consumer-secret, stops the run in the extraction of the
    credentials: one error line is written, a [KeyError] (a [LookupError]) is
    raised, and no call to tweepy has been made. *)
Theorem missing_credentials_stop_the_run
  (env : Env) (d : nat) (doc : list (string * json)) (w : World) :
  read_configuration env = Ok (JDict doc) ->
  writable env ->
  2 <= d ->
  credentials_missing doc ->
  exists w',
    module_body env d w = (Raise (Exn KeyError credentials_error), w') /\
    is_LookupError (Exn KeyError credentials_error) = true /\
    logs w' = logs w ++ nl ++ timestamp env w ++ " | [E]: " ++ credentials_error /\
    calls w' = calls w.
Proof.
  intros Hread Hio Hd Hmiss. destruct d as [|[|d]]; try lia.
  unfold module_body. unfold bind at 1.
  rewrite (load_configuration_loaded env _ _ w Hread).
  unfold bind at 1.
  edestruct (extract_credentials_missing env d doc) as (w' & Hrun & Hlogs & Hcalls);
    [exact Hio | | exact Hmiss | ].
  2: { rewrite Hrun. exists w'. repeat split; eassumption. }
  reflexivity.
Qed.

(** ** Invariants of the script's state *)

(** [m] keeps [I]: from a world where [I] holds it leaves one where [I] holds,
    whether it returns or raises. *)
Definition preserves {A : Type} (I : World -> Prop) (m : M A) : Prop :=
  forall w, I w -> I (snd (m w)).

(** [I] reads only the calls made and the globals, not the log or the clock. *)
Definition script_only (I : World -> Prop) : Prop :=
  forall w w', calls w' = calls w -> globals w' = globals w -> I w -> I w'.

Section Preservation.

Variable I : World -> Prop.

Lemma preserves_ret {A : Type} (a : A) : preserves I (ret a).
Proof. intros w H. exact H. Qed.

Lemma preserves_raise {A : Type} (e : exn) : preserves I (@raise A e).
Proof. intros w H. exact H. Qed.

Lemma preserves_lift {A : Type} (r : result A) : preserves I (lift r).
Proof. intros w H. exact H. Qed.

Lemma preserves_get {A : Type} (f : Globals -> A) : preserves I (get f).
Proof. intros w H. exact H. Qed.

Lemma preserves_get_configuration (env : Env) :
  preserves I (get_configuration env).
Proof.
  intros w H. unfold get_configuration, bind, get.
  destruct (configuration (globals w)); exact H.
Qed.

Lemma preserves_dict_index {V : Type} (d : list (string * V)) (k : string) :
  preserves I (dict_index d k).
Proof. intros w H. unfold dict_index. destruct (dict_get d k); exact H. Qed.

Lemma preserves_bind {A B : Type} (m : M A) (k : A -> M B) :
  preserves I m -> (forall a, preserves I (k a)) -> preserves I (bind m k).
Proof.
  intros Hm Hk w H. unfold bind. specialize (Hm w H).
  destruct (m w) as [[a|e] w']; cbn [snd] in *.
  - now apply Hk.
  - exact Hm.
Qed.

(** A value read from the globals that [I] pins down can be taken as known. *)
Lemma preserves_bind_get {A B : Type} (f : Globals -> A) (v : A) (k : A -> M B) :
  (forall w, I w -> f (globals w) = v) ->
  preserves I (k v) ->
  preserves I (bind (get f) k).
Proof.
  intros Hv Hk w H. unfold bind, get. rewrite (Hv w H). now apply Hk.
Qed.

Lemma preserves_try_except {A : Type} (body : M A) (cs : list (clause A)) :
  preserves I body ->
  Forall (fun c => forall e, preserves I (snd c e)) cs ->
  preserves I (try_except body cs).
Proof.
  intros Hb Hcs w H. unfold try_except. specialize (Hb w H).
  destruct (body w) as [[a|e] w']; cbn [snd] in *; [exact Hb|].
  induction Hcs as [|[test h] cs Hh Hcs IH]; cbn [dispatch]; [exact Hb|].
  destruct (test e); [now apply (Hh e) | exact IH].
Qed.

Lemma preserves_for_each {A : Type} (l : list A) (body : A -> M unit) :
  (forall x, preserves I (body x)) -> preserves I (for_each l body).
Proof.
  intros Hb. induction l as [|x l IH]; cbn [for_each].
  - apply preserves_ret.
  - apply preserves_bind; [apply Hb | intros _; exact IH].
Qed.

Lemma preserves_match_option {A B : Type} (o : option A) (s : A -> M B) (n : M B) :
  (forall a, preserves I (s a)) -> preserves I n ->
  preserves I (match o with Some a => s a | None => n end).
Proof. intros Hs Hn. destruct o; [apply Hs | exact Hn]. Qed.

Hypothesis I_script_only : script_only I.

Lemma preserves_get_current_time (env : Env) (d : nat) :
  preserves I (get_current_time env d).
Proof.
  intros w H. destruct d; [exact H|].
  cbn [get_current_time snd]. now apply (I_script_only w).
Qed.

Lemma preserves_append_logs (env : Env) (message : string) :
  preserves I (append_logs env message).
Proof.
  intros w H. unfold append_logs. destruct (logs_io env (ticks w)); [exact H|].
  cbn [snd]. now apply (I_script_only w).
Qed.

(** The logger writes the log and reads the clock, nothing else. *)
Lemma preserves_logging (env : Env) (d : nat) :
  (forall msg kind, preserves I (log env d msg kind)) /\
  (forall e, preserves I (log_undefined_error env d e)).
Proof.
  induction d as [|d [IHlog IHlue]].
  - split; intros; apply preserves_raise.
  - split.
    + intros msg kind. cbn [log].
      apply preserves_bind.
      * apply preserves_try_except.
        -- destruct (negb (strip (lower kind) =? "title")).
           ++ apply preserves_bind; [apply preserves_dict_index|].
              intros t. apply preserves_ret.
           ++ apply preserves_ret.
        -- repeat constructor; cbn [snd]; intros e.
           ++ apply preserves_bind; [apply IHlog | intros _; apply preserves_raise].
           ++ apply preserves_bind; [apply IHlue | intros _; apply preserves_ret].
      * intros message. apply preserves_bind; [apply preserves_get_current_time|].
        intros time. apply preserves_try_except; [apply preserves_append_logs|].
        repeat constructor; cbn [snd]; intros e.
        -- apply preserves_bind; [apply IHlog | intros _; apply preserves_raise].
        -- apply IHlue.
    + intros e. cbn [log_undefined_error]. apply IHlog.
Qed.

Lemma preserves_log (env : Env) (d : nat) (msg kind : string) :
  preserves I (log env d msg kind).
Proof. apply preserves_logging. Qed.

Lemma preserves_log_undefined_error (env : Env) (d : nat) (e : exn) :
  preserves I (log_undefined_error env d e).
Proof. apply preserves_logging. Qed.

Lemma preserves_to_iso_code (env : Env) (d : nat) (language : string) :
  preserves I (to_iso_code env d language).
Proof.
  destruct d as [|d]; [apply preserves_raise|]. cbn [to_iso_code].
  apply preserves_try_except; [apply preserves_dict_index|].
  repeat constructor; cbn [snd]; intros e.
  - apply preserves_bind; [apply preserves_log | intros _; apply preserves_raise].
  - apply preserves_bind;
      [apply preserves_log_undefined_error | intros _; apply preserves_ret].
Qed.

Lemma preserves_is_valid_result (env : Env) (d : nat) (result_type : string) :
  preserves I (is_valid_result env d result_type).
Proof.
  destruct d as [|d]; [apply preserves_raise|]. cbn [is_valid_result].
  destruct (existsb (String.eqb (strip result_type)) result_types).
  - apply preserves_ret.
  - apply preserves_bind; [apply preserves_log | intros _; apply preserves_raise].
Qed.

End Preservation.

Lemma bind_modify_globals {B : Type} (f : Globals -> Globals) (k : unit -> M B)
  (w : World) :
  bind (modify_globals f) k w =
  k tt {| logs := logs w; ticks := ticks w; calls := calls w;
          globals := f (globals w) |}.
Proof. reflexivity. Qed.

(** Walks through a piece of the script with the lemmas above; [leaf] proves
    what depends on the invariant: that it reads the script's state only,
    that an assignment or a recorded call keeps it, and what it says of a
    global that is read. *)
Ltac preserve_step leaf :=
  lazymatch goal with
  | |- preserves _ (ret _) => apply preserves_ret
  | |- preserves _ (raise _) => apply preserves_raise
  | |- preserves _ (lift _) => apply preserves_lift
  | |- preserves _ (get_configuration _) => apply preserves_get_configuration
  | |- preserves _ (dict_index _ _) => apply preserves_dict_index
  | |- preserves _ (bind (get _) _) =>
      first [ eapply preserves_bind_get; [solve [leaf] | cbv beta]
            | apply preserves_bind; [apply preserves_get | intros ?] ]
  | |- preserves _ (bind _ _) => apply preserves_bind; [ | intros ?]
  | |- preserves _ (try_except _ _) => apply preserves_try_except
  | |- Forall _ (_ :: _) => apply Forall_cons; [cbn [snd]; intros ? | ]
  | |- Forall _ [] => apply Forall_nil
  | |- preserves _ (log _ _ _ _) => apply preserves_log; solve [leaf]
  | |- preserves _ (log_undefined_error _ _ _) =>
      apply preserves_log_undefined_error; solve [leaf]
  | |- preserves _ (to_iso_code _ _ _) => apply preserves_to_iso_code; solve [leaf]
  | |- preserves _ (is_valid_result _ _ _) =>
      apply preserves_is_valid_result; solve [leaf]
  | |- preserves _ (for_each _ _) => apply preserves_for_each; intros ?
  | |- preserves _ (match ?x with _ => _ end) => destruct x
  | |- preserves _ (modify_globals _) => solve [leaf]
  | |- preserves _ (record_call _) => solve [leaf]
  end.

Ltac preserve leaf :=
  cbv beta zeta
      delta [load_configuration extract_credentials create_api parse_query
             fetch_tweets tweepy_OAuthHandler tweepy_set_access_token
             tweepy_api tweets_append];
  repeat preserve_step leaf.

(** The invariant of the guard: the configuration that was loaded is still
    bound, and the search calls made are [searches]. *)
Definition holds_configuration (doc : json) (searches : list api_call)
  (w : World) : Prop :=
  configuration (globals w) = Some doc /\
  filter is_search (calls w) = searches.

Ltac holds_configuration_leaf :=
  idtac;
  lazymatch goal with
  | |- script_only _ =>
      intros ? ? Hc Hg [H1 H2]; split; [rewrite Hg | rewrite Hc]; assumption
  | |- preserves _ (modify_globals _) =>
      intros ? [H1 H2]; split; [exact H1 | exact H2]
  | |- preserves _ (record_call _) =>
      intros ? [H1 H2]; split; [exact H1 | ];
      cbn [snd record_call calls]; rewrite filter_app;
      cbn [filter is_search]; rewrite app_nil_r; exact H2
  end.

(** The invariant of the access token: the two globals hold the empty
    string, and every [set_access_token] call recorded passed two empty
    strings. *)
Definition empty_token_calls (w : World) : Prop :=
  forall a b, In (CallSetAccessToken a b) (calls w) ->
              a = JStr "" /\ b = JStr "".

Definition empty_tokens (w : World) : Prop :=
  ACCESS_TOKEN (globals w) = JStr "" /\
  ACCESS_TOKEN_SECRET (globals w) = JStr "" /\
  empty_token_calls w.

Ltac empty_tokens_leaf :=
  idtac;
  lazymatch goal with
  | |- script_only _ =>
      intros ? ? Hc Hg (H1 & H2 & H3); unfold empty_tokens, empty_token_calls;
      rewrite Hg, Hc; auto
  | |- preserves _ (modify_globals _) =>
      intros ? (H1 & H2 & H3); split; [exact H1 | split; [exact H2 | exact H3]]
  | |- preserves _ (record_call _) =>
      intros ? (H1 & H2 & H3); split; [exact H1 | split; [exact H2 | ]];
      intros ? ? Hin; cbn [snd record_call calls] in Hin;
      apply in_app_or in Hin; destruct Hin as [Hin | [Heq | []]];
      [ exact (H3 _ _ Hin)
      | first [ discriminate Heq | injection Heq as <- <-; split; reflexivity ] ]
  | |- forall w, _ -> ACCESS_TOKEN (globals w) = _ =>
      intros ? H; exact (proj1 H)
  | |- forall w, _ -> ACCESS_TOKEN_SECRET (globals w) = _ =>
      intros ? H; exact (proj1 (proj2 H))
  end.

Ltac empty_token_calls_leaf :=
  idtac;
  lazymatch goal with
  | |- script_only _ =>
      intros ? ? Hc Hg H; unfold empty_token_calls; rewrite Hc; exact H
  | |- preserves _ (modify_globals _) => intros ? H; exact H
  end.

Section PhaseInvariants.

Variable env : Env.
Variable d : nat.

Lemma extract_credentials_holds_configuration doc searches :
  preserves (holds_configuration doc searches) (extract_credentials env d).
Proof. preserve holds_configuration_leaf. Qed.

Lemma create_api_holds_configuration doc searches :
  preserves (holds_configuration doc searches) (create_api env d).
Proof. preserve holds_configuration_leaf. Qed.

Lemma parse_query_holds_configuration doc searches :
  preserves (holds_configuration doc searches) (parse_query env d).
Proof. preserve holds_configuration_leaf. Qed.

Lemma load_configuration_empty_token_calls :
  preserves empty_token_calls (load_configuration env d).
Proof. preserve empty_token_calls_leaf. Qed.

Lemma create_api_empty_tokens : preserves empty_tokens (create_api env d).
Proof. preserve empty_tokens_leaf. Qed.

Lemma parse_query_empty_tokens : preserves empty_tokens (parse_query env d).
Proof. preserve empty_tokens_leaf. Qed.

Lemma fetch_tweets_empty_tokens : preserves empty_tokens (fetch_tweets env).
Proof. preserve empty_tokens_leaf. Qed.

(** Lines 160-161 set the two globals; the rest of the phase keeps them. *)
Lemma extract_credentials_empty_tokens (w : World) :
  empty_token_calls w -> empty_tokens (snd (extract_credentials env d w)).
Proof.
  intros H. unfold extract_credentials. rewrite !bind_modify_globals.
  match goal with
  | |- empty_tokens (snd (?m ?w')) =>
      assert (Hp : preserves empty_tokens m) by preserve empty_tokens_leaf;
      apply Hp
  end.
  split; [reflexivity | split; [reflexivity | exact H]].
Qed.

End PhaseInvariants.

(** ** How the logger fails *)

(** The exception a result carries, if any. *)
Definition err_of {A : Type} (r : result A) : option exn :=
  match r with
  | Ok _ => None
  | Raise e => Some e
  end.

(** Two computations that end the same way, with the same exception or with
    none, whatever the worlds they start from. *)
Definition same_failure {A B : Type} (m : M A) (m' : M B) : Prop :=
  forall w1 w2, err_of (fst (m w1)) = err_of (fst (m' w2)).

Lemma same_failure_ret {A B : Type} (a : A) (b : B) :
  same_failure (ret a) (ret b).
Proof. intros w1 w2. reflexivity. Qed.

Lemma same_failure_raise {A B : Type} (e : exn) :
  same_failure (@raise A e) (@raise B e).
Proof. intros w1 w2. reflexivity. Qed.

Lemma same_failure_bind {A A' B B' : Type}
  (m : M A) (m' : M A') (k : A -> M B) (k' : A' -> M B') :
  same_failure m m' ->
  (forall a a', same_failure (k a) (k' a')) ->
  same_failure (bind m k) (bind m' k').
Proof.
  intros Hm Hk w1 w2. unfold bind. specialize (Hm w1 w2).
  destruct (m w1) as [[a|e] w1'], (m' w2) as [[a'|e'] w2'];
    cbn [fst err_of] in *; try discriminate.
  - apply Hk.
  - exact Hm.
Qed.

(** Clause by clause, the same tests and handlers that end the same way. *)
Definition same_clauses {A B : Type} (cs : list (clause A)) (cs' : list (clause B))
  : Prop :=
  Forall2 (fun c c' => fst c = fst c' /\
                       forall e, same_failure (snd c e) (snd c' e)) cs cs'.

Lemma same_failure_try_except {A B : Type}
  (body : M A) (body' : M B) (cs : list (clause A)) (cs' : list (clause B)) :
  same_failure body body' ->
  same_clauses cs cs' ->
  same_failure (try_except body cs) (try_except body' cs').
Proof.
  intros Hb Hcs w1 w2. unfold try_except. specialize (Hb w1 w2).
  destruct (body w1) as [[a|e] w1'], (body' w2) as [[a'|e'] w2'];
    cbn [fst err_of] in *; try discriminate; [reflexivity|].
  injection Hb as <-.
  induction Hcs as [|[t h] [t' h'] cs cs' [Ht Hh] Hcs IH]; cbn [dispatch].
  - reflexivity.
  - cbn [fst snd] in Ht, Hh. subst t'. destruct (t e); [apply Hh | exact IH].
Qed.

Section LoggerFailure.

Variable env : Env.
Hypothesis Hsteady : steady env.

Lemma same_failure_get_current_time (d : nat) :
  same_failure (get_current_time env d) (get_current_time env d).
Proof. intros w1 w2. destruct d; reflexivity. Qed.

Lemma same_failure_append_logs (m1 m2 : string) :
  same_failure (append_logs env m1) (append_logs env m2).
Proof.
  intros w1 w2. unfold append_logs. rewrite (Hsteady (ticks w1) (ticks w2)).
  destruct (logs_io env (ticks w2)); reflexivity.
Qed.

(** With a log store that answers every open in the same way, whether an
    error line can be logged, and the exception raised when it cannot,
    depends on the frames left and on the store, not on the message or on
    the world. *)
Lemma same_failure_logging (d : nat) :
  (forall m1 m2, same_failure (log env d m1 "error") (log env d m2 "error")) /\
  (forall e1 e2,
     same_failure (log_undefined_error env d e1) (log_undefined_error env d e2)).
Proof.
  induction d as [|d [IHlog IHlue]].
  - split; intros; apply same_failure_raise.
  - split.
    + intros m1 m2. cbn [log].
      change (strip (lower "error")) with "error".
      apply same_failure_bind.
      * apply same_failure_try_except.
        -- cbn [String.eqb Ascii.eqb Bool.eqb negb].
           apply same_failure_bind.
           ++ intros w1 w2. reflexivity.
           ++ intros t t'. apply same_failure_ret.
        -- repeat (constructor; [split; [reflexivity|]; cbn [snd]; intros e|]).
           ++ apply same_failure_bind;
                [apply IHlog | intros; apply same_failure_raise].
           ++ apply same_failure_bind;
                [apply IHlue | intros; apply same_failure_ret].
           ++ constructor.
      * intros a a'. apply same_failure_bind;
          [apply same_failure_get_current_time|].
        intros t t'. apply same_failure_try_except;
          [apply same_failure_append_logs|].
        repeat (constructor; [split; [reflexivity|]; cbn [snd]; intros e|]).
        -- apply same_failure_bind;
             [apply IHlog | intros; apply same_failure_raise].
        -- apply IHlue.
        -- constructor.
    + intros e1 e2. cbn [log_undefined_error]. apply IHlog.
Qed.

(** An exception that ends the run when it reaches one of the module's
    [try] statements: a [KeyError], which the first clause logs and raises
    again; one that is not an [Exception], which no clause takes; or one
    that [log_undefined_error] cannot log. *)
Definition doomed (d : nat) (e : exn) : Prop :=
  is_KeyError e = true \/
  is_Exception e = false \/
  forall w, err_of (fst (log_undefined_error env d e w)) <> None.

Lemma doomed_KeyError (d : nat) (arg : string) : doomed d (Exn KeyError arg).
Proof. left. reflexivity. Qed.

Lemma doomed_recursion_error : doomed 0 (recursion_error env).
Proof. right. right. intros w. discriminate. Qed.

(** When an error line could not be logged, the exception cannot be logged
    from the module either. *)
Lemma doomed_log_failure (d : nat) (msg : string) (w w' : World) (e : exn) :
  log env d msg "error" w = (Raise e, w') -> doomed (S d) e.
Proof.
  intros H. right. right. intros w0. cbn [log_undefined_error].
  rewrite (proj1 (same_failure_logging d) _ msg w0 w), H. discriminate.
Qed.

(** The two clauses every [try] of the module ends with. *)
Definition module_clauses (d : nat) (err : string) : list (clause unit) :=
  [ (is_KeyError, fun _ =>
       log env d err "error" ;; raise (Exn KeyError err));
    (is_Exception, fun e => log_undefined_error env d e) ].

Lemma doomed_is_fatal (d : nat) (err : string) (body : M unit)
  (w w' : World) (e : exn) :
  body w = (Raise e, w') ->
  doomed d e ->
  exists e', fst (try_except body (module_clauses d err) w) = Raise e'.
Proof.
  intros Hb Hd. unfold try_except. rewrite Hb. unfold module_clauses.
  cbn [dispatch].
  destruct (is_KeyError e) eqn:Ek.
  - unfold bind. destruct (log env d err "error" w') as [[u|e'] w'']; eexists; reflexivity.
  - destruct (is_Exception e) eqn:Ee.
    + destruct Hd as [Hd|[Hd|Hd]]; try congruence.
      specialize (Hd w').
      destruct (log_undefined_error env d e w') as [[u|e'] w''];
        [now contradiction Hd | eexists; reflexivity].
    + eexists; reflexivity.
Qed.

(** The resolver returns the code of the table, or fails for good. *)
Lemma to_iso_code_cases (d : nat) (language : string) (w : World) :
  (exists code, dict_get languages language = Some code /\
                to_iso_code env d language w = (Ok code, w)) \/
  (exists e w', to_iso_code env d language w = (Raise e, w') /\ doomed d e).
Proof.
  destruct d as [|d].
  - right. exists (recursion_error env), w. split; [reflexivity | apply doomed_recursion_error].
  - destruct (dict_get languages language) as [code|] eqn:E.
    + left. exists code. split; [reflexivity | now apply to_iso_code_supported].
    + right. cbn [to_iso_code]. unfold try_except, dict_index. rewrite E.
      unfold raise at 1. cbn [dispatch is_KeyError class_of exn_class_eqb].
      unfold bind.
      destruct (log env d _ "error" w) as [[u|e] w'] eqn:El.
      * do 2 eexists. split; [reflexivity | apply doomed_KeyError].
      * do 2 eexists. split; [reflexivity|].
        exact (doomed_log_failure d _ w w' e El).
Qed.

(** The validator returns the trimmed value, or fails for good. *)
Lemma is_valid_result_cases (d : nat) (result_type : string) (w : World) :
  (existsb (String.eqb (strip result_type)) result_types = true /\
   is_valid_result env d result_type w = (Ok (strip result_type), w)) \/
  (exists e w', is_valid_result env d result_type w = (Raise e, w') /\ doomed d e).
Proof.
  destruct d as [|d].
  - right. exists (recursion_error env), w. split; [reflexivity | apply doomed_recursion_error].
  - destruct (existsb (String.eqb (strip result_type)) result_types) eqn:E.
    + left. split; [reflexivity | now apply is_valid_result_valid].
    + right. cbn [is_valid_result]. rewrite E. unfold bind.
      destruct (log env d _ "error" w) as [[u|e] w'] eqn:El.
      * do 2 eexists. split; [reflexivity | apply doomed_KeyError].
      * do 2 eexists. split; [reflexivity|].
        exact (doomed_log_failure d _ w w' e El).
Qed.

End LoggerFailure.

(** ** The guard of the search *)

(** [m] ends with an exception from every world where [I] holds, and
    keeps [I]. *)
Definition aborts {A : Type} (I : World -> Prop) (m : M A) : Prop :=
  forall w, I w -> (exists e, fst (m w) = Raise e) /\ I (snd (m w)).

Lemma aborts_bind_now {A B : Type} (I : World -> Prop) (m : M A) (k : A -> M B) :
  aborts I m -> aborts I (bind m k).
Proof.
  intros Hm w H. destruct (Hm w H) as [[e He] HI]. unfold bind.
  destruct (m w) as [[a|e'] w']; cbn [fst snd] in *; [discriminate|].
  split; [now exists e' | exact HI].
Qed.

Lemma aborts_bind_later {A B : Type} (I : World -> Prop) (m : M A) (k : A -> M B) :
  preserves I m -> (forall a, aborts I (k a)) -> aborts I (bind m k).
Proof.
  intros Hm Hk w H. specialize (Hm w H). unfold bind.
  destruct (m w) as [[a|e'] w']; cbn [fst snd] in *.
  - now apply Hk.
  - split; [now exists e' | exact Hm].
Qed.

Section Guard.

Variable env : Env.
Hypothesis Hsteady : steady env.
Variable d : nat.

Lemma parse_query_raises (doc : list (string * json)) (w : World) :
  configuration (globals w) = Some (JDict doc) ->
  str_member doc "language" ->
  str_member doc "result-type" ->
  language_resolves (JDict doc) = false \/ result_type_valid (JDict doc) = false ->
  exists e, fst (parse_query env d w) = Raise e.
Proof.
  intros Hcfg Hl Hr Hbad. unfold parse_query. rewrite !bind_modify_globals.
  match goal with
  | |- exists e, fst (try_except ?body ?cs ?w4) = _ =>
      assert (Hbody : exists e w', body w4 = (Raise e, w') /\ doomed env d e)
  end.
  { unfold str_member in Hl, Hr. cbn [language_resolves result_type_valid] in Hbad.
    run_script. rewrite Hcfg. run_script.
    destruct (dict_get doc "hashtag") as [h|]; run_script;
      [|do 2 eexists; split; [reflexivity | apply doomed_KeyError]].
    rewrite Hcfg. run_script.
    destruct (dict_get doc "max-tweets") as [m|]; run_script;
      [|do 2 eexists; split; [reflexivity | apply doomed_KeyError]].
    rewrite Hcfg. run_script.
    destruct (dict_get doc "language") as [[| | | |s| |]|]; try contradiction;
      run_script;
      [|do 2 eexists; split; [reflexivity | apply doomed_KeyError]].
    match goal with
    | |- context [to_iso_code env d ?l ?W] =>
        destruct (to_iso_code_cases env Hsteady d l W)
          as [(code & Hcode & Hrun) | (e & w' & Hrun & Hd)];
        rewrite Hrun; run_script
    end; [|do 2 eexists; split; [reflexivity | exact Hd]].
    rewrite Hcode in Hbad. rewrite Hcfg. run_script.
    destruct (dict_get doc "result-type") as [[| | | |r| |]|]; try contradiction;
      run_script;
      [|do 2 eexists; split; [reflexivity | apply doomed_KeyError]].
    match goal with
    | |- context [is_valid_result env d ?l ?W] =>
        destruct (is_valid_result_cases env Hsteady d l W)
          as [[Hv Hrun2] | (e & w' & Hrun2 & Hd)];
        rewrite Hrun2; run_script
    end; [|do 2 eexists; split; [reflexivity | exact Hd]].
    rewrite Hv in Hbad. destruct Hbad; discriminate. }
  destruct Hbody as (e & w' & Hb & Hd).
  exact (doomed_is_fatal env d _ _ _ _ e Hb Hd).
Qed.

End Guard.

(** C2, as the code has it.  When the loaded configuration is a JSON object
    whose language and result-type members, where present, are strings, and
    the log store answers every open of the run in the same way (it opens
    each time, or fails each time with the same exception): if the language
    does not resolve or the result type is not one of the three, the run
    ends with an exception and has made no search call; put the other way
    round, when a search call was made the language resolved and the result
    type was valid.  This holds whatever the frames left and whatever
    tweepy does. *)
Theorem unresolved_configuration_stops_the_run
  (env : Env) (d : nat) (doc : list (string * json)) (w : World) :
  steady env ->
  read_configuration env = Ok (JDict doc) ->
  str_member doc "language" ->
  str_member doc "result-type" ->
  (language_resolves (JDict doc) = false \/
   result_type_valid (JDict doc) = false ->
   exists e w',
     module_body env d w = (Raise e, w') /\
     filter is_search (calls w') = filter is_search (calls w)) /\
  (filter is_search (calls (snd (module_body env d w))) <>
   filter is_search (calls w) ->
   language_resolves (JDict doc) = true /\
   result_type_valid (JDict doc) = true).
Proof.
  intros Hsteady Hread Hl Hr.
  assert (Hstop :
    language_resolves (JDict doc) = false \/
    result_type_valid (JDict doc) = false ->
    exists e w',
      module_body env d w = (Raise e, w') /\
      filter is_search (calls w') = filter is_search (calls w)).
  { intros Hbad. unfold module_body. unfold bind at 1.
    rewrite (load_configuration_loaded env d _ w Hread).
    set (I := holds_configuration (JDict doc) (filter is_search (calls w))).
    assert (Habort :
      aborts I (extract_credentials env d ;; create_api env d ;;
                parse_query env d ;; fetch_tweets env)).
    { apply aborts_bind_later;
        [apply extract_credentials_holds_configuration | intros _].
      apply aborts_bind_later;
        [apply create_api_holds_configuration | intros _].
      apply aborts_bind_now. intros w0 [Hcfg Hcalls]. split.
      - now apply (parse_query_raises env Hsteady d doc).
      - now apply parse_query_holds_configuration. }
    match goal with
    | |- exists e w', ?m ?w1 = _ /\ _ =>
        destruct (Habort w1) as [[e He] [_ Hcalls]]; [split; reflexivity|];
        destruct (m w1) as [r w'] eqn:Em
    end.
    cbn [fst snd] in He, Hcalls. subst r. now exists e, w'. }
  split; [exact Hstop|].
  intros Hsearch.
  destruct (language_resolves (JDict doc)) eqn:El,
           (result_type_valid (JDict doc)) eqn:Ev;
    try (split; reflexivity);
    exfalso; apply Hsearch;
    (destruct Hstop as (e & w' & Hrun & Hcalls); [auto|]);
    rewrite Hrun; exact Hcalls.
Qed.

Lemma unresolved_configuration_stops_the_run_witness :
  (exists e w',
     module_body
       (env_with (JDict (document_with_language (JStr "Klingon"))) None None)
       3 fresh_world = (Raise e, w') /\
     filter is_search (calls w') = filter is_search (calls fresh_world)) /\
  (language_resolves demo_configuration = true /\
   result_type_valid demo_configuration = true).
Proof.
  split.
  - apply (unresolved_configuration_stops_the_run
             (env_with (JDict (document_with_language (JStr "Klingon"))) None None)
             3 (document_with_language (JStr "Klingon")) fresh_world);
      [intros n m; reflexivity | reflexivity | exact I | exact I
      | left; reflexivity].
  - apply (unresolved_configuration_stops_the_run demo_env 3 _ fresh_world);
      [intros n m; reflexivity | reflexivity | exact I | exact I
      | vm_compute; discriminate].
Defined.

(** C2 as stated fails: the document is loaded, its language is the number
    5, which the table does not resolve, and the run goes on to the search
    with the empty string for the language. *)
Lemma unresolved_configuration_counterexample :
  let env := env_with (JDict (document_with_language (JInt 5))) None None in
  read_configuration env = Ok (JDict (document_with_language (JInt 5))) /\
  language_resolves (JDict (document_with_language (JInt 5))) = false /\
  fst (module_body env 3 fresh_world) = Ok tt /\
  filter is_search (calls (snd (module_body env 3 fresh_world))) =
    [CallSearch (JStr "#test") (JInt 5)] /\
  LANGUAGE (globals (snd (module_body env 3 fresh_world))) = JStr "".
Proof. vm_compute. repeat split. Qed.

(** Why the store must answer every open in the same way.  Here the
    language does not resolve and the first open of [logs.txt] fails, the
    later ones succeed: the failure is reported, the [FileNotFoundError] of
    line 72 leaves [to_iso_code] in place of its [KeyError], the second
    clause of line 194 logs it and drops it, and the search is made with
    the empty string for the language. *)
Example store_that_fails_once :
  let env :=
    {| clock := demo_clock;
       logs_io := fun n =>
         if (n =? 2)%nat
         then Some (Exn FileNotFoundError
                      "[Errno 2] No such file or directory: 'logs.txt'")
         else None;
       fault_text := cpython_text;
       read_configuration := Ok (JDict (document_with_language (JStr "Klingon")));
       OAuthHandler_raises := fun _ _ => None;
       set_access_token_raises := fun _ _ => None;
       api_raises := fun _ => None;
       search_items := fun _ _ _ => (demo_statuses, None) |} in
  language_resolves (JDict (document_with_language (JStr "Klingon"))) = false /\
  fst (module_body env 4 fresh_world) = Ok tt /\
  filter is_search (calls (snd (module_body env 4 fresh_world))) =
    [CallSearch (JStr "#test") (JInt 5)] /\
  LANGUAGE (globals (snd (module_body env 4 fresh_world))) = JStr "" /\
  logs (snd (module_body env 4 fresh_world)) =
    ("old" ++ String "010"%char
       "08/03/2021 at 12:00:00 | [E]: Can't find the logs file, to save the log...")
    ++ String "010"%char
       "08/03/2021 at 12:00:00 | [E]: An exception is not handled: Can't find the logs file, to save the log...".
Proof. vm_compute. repeat split. Qed.

(** C8. The two values passed to [set_access_token] are the empty string in
    every run: whatever the configuration file holds and whatever tweepy
    does, every such call the run records has two empty strings. *)
Theorem access_token_is_never_read (env : Env) (d : nat) (w : World) :
  (forall key secret,
     In (CallSetAccessToken key secret) (calls w) ->
     key = JStr "" /\ secret = JStr "") ->
  forall key secret,
    In (CallSetAccessToken key secret) (calls (snd (module_body env d w))) ->
    key = JStr "" /\ secret = JStr "".
Proof.
  intros H. change (empty_token_calls (snd (module_body env d w))).
  change (empty_token_calls w) in H. revert w H.
  change (preserves empty_token_calls (module_body env d)).
  unfold module_body.
  apply preserves_bind; [apply load_configuration_empty_token_calls | intros _].
  intros w H. apply (extract_credentials_empty_tokens env d) in H.
  unfold bind.
  destruct (extract_credentials env d w) as [[u|e] w']; cbn [snd] in H |- *;
    [|apply H].
  assert (Hrest : preserves empty_tokens
            (create_api env d ;; parse_query env d ;; fetch_tweets env)).
  { apply preserves_bind; [apply create_api_empty_tokens | intros _].
    apply preserves_bind; [apply parse_query_empty_tokens | intros _].
    apply fetch_tweets_empty_tokens. }
  apply (Hrest w' H).
Qed.

Lemma access_token_is_never_read_witness :
  In (CallSetAccessToken (JStr "") (JStr ""))
     (calls (snd (module_body demo_env 3 fresh_world))) /\
  Forall (fun c => match c with
                   | CallSetAccessToken key secret =>
                       key = JStr "" /\ secret = JStr ""
                   | _ => True
                   end)
         (calls (snd (module_body demo_env 3 fresh_world))).
Proof.
  split; [vm_compute; tauto|].
  apply Forall_forall. intros [k s|key secret|a|q n] Hin; try exact I.
  apply (access_token_is_never_read demo_env 3 fresh_world); [|exact Hin].
  intros key' secret' H. destruct H.
Defined.

(** The run of the demonstration: the document defines an access token, and
    the calls made to tweepy pass the empty string all the same; the
    language and the result type are normalised, the tweets collected, and
    no line is written to the log. *)
Example module_body_demo :
  let w' := snd (module_body demo_env 3 fresh_world) in
  let a := {| ah_consumer_key := JStr "key"; ah_consumer_secret := JStr "secret";
              ah_access_token := Some (JStr "", JStr "") |} in
  fst (module_body demo_env 3 fresh_world) = Ok tt /\
  calls w' =
    [CallOAuthHandler (JStr "key") (JStr "secret");
     CallSetAccessToken (JStr "") (JStr "");
     CallApi a;
     CallSearch (JStr "#test") (JInt 5)] /\
  LANGUAGE (globals w') = JStr "es" /\
  RESULT_TYPE (globals w') = JStr "recent" /\
  tweets (globals w') = map current_tweet demo_statuses /\
  logs w' = "old".
Proof. vm_compute. repeat split. Qed.

Lemma missing_credentials_stop_the_run_witness :
  let doc := [("credentials", JDict [("consumer-key", JStr "key")]);
              ("hashtag", JStr "#test"); ("max-tweets", JInt 5);
              ("language", JStr "Spanish"); ("result-type", JStr "recent")] in
  let env := env_with (JDict doc) None None in
  credentials_missing doc /\
  exists w',
    module_body env 2 fresh_world = (Raise (Exn KeyError credentials_error), w') /\
    is_LookupError (Exn KeyError credentials_error) = true /\
    logs w' = logs fresh_world ++ nl ++ timestamp env fresh_world ++
              " | [E]: " ++ credentials_error /\
    calls w' = calls fresh_world.
Proof.
  cbv zeta.
  assert (Hmiss : credentials_missing
            [("credentials", JDict [("consumer-key", JStr "key")]);
             ("hashtag", JStr "#test"); ("max-tweets", JInt 5);
             ("language", JStr "Spanish"); ("result-type", JStr "recent")]).
  { right. exists [("consumer-key", JStr "key")].
    split; [reflexivity | right; reflexivity]. }
  split; [exact Hmiss|].
  eapply (missing_credentials_stop_the_run _ 2 _ fresh_world);
    [reflexivity | intros n; reflexivity | lia | exact Hmiss].
Defined.

(** C7 as stated fails: the credentials member of the document is null, so
    the document has no consumer-secret (and no consumer-key); reading it
    raises a [TypeError], which the second clause of line 170 logs and
    drops, and the run goes on to tweepy and to the search with empty
    credentials. *)
Lemma missing_credentials_counterexample :
  let doc := [("credentials", JNull); ("hashtag", JStr "#test");
              ("max-tweets", JInt 5); ("language", JStr "Spanish");
              ("result-type", JStr "recent")] in
  let env := env_with (JDict doc) None None in
  read_configuration env = Ok (JDict doc) /\
  dict_get doc "credentials" = Some JNull /\
  fst (module_body env 3 fresh_world) = Ok tt /\
  calls (snd (module_body env 3 fresh_world)) =
    [CallOAuthHandler (JStr "") (JStr "");
     CallSetAccessToken (JStr "") (JStr "");
     CallApi {| ah_consumer_key := JStr ""; ah_consumer_secret := JStr "";
                ah_access_token := Some (JStr "", JStr "") |};
     CallSearch (JStr "#test") (JInt 5)] /\
  logs (snd (module_body env 3 fresh_world)) =
    "old" ++ String "010"%char
      "08/03/2021 at 12:00:00 | [E]: An exception is not handled: 'NoneType' object is not subscriptable".
Proof. vm_compute. repeat split. Qed.

(** The same with a document that is not an object at all: every subscript
    raises a [TypeError], each is logged and dropped, and the search is
    made. *)
Example document_not_an_object :
  let env := env_with (JList []) None None in
  fst (module_body env 3 fresh_world) = Ok tt /\
  filter is_search (calls (snd (module_body env 3 fresh_world))) =
    [CallSearch (JStr "") (JStr "")].
Proof. vm_compute. repeat split. Qed.

(** * More of the script *)

(** ** The logger: what it leaves alone, and what it does to the log *)

(** A property of worlds that survives a reading of the clock and a text
    appended to the log. *)
Definition logger_closed (I : World -> Prop) : Prop :=
  (forall w n, I w ->
     I {| logs := logs w; ticks := n; calls := calls w; globals := globals w |}) /\
  (forall w s, I w ->
     I {| logs := logs w ++ s; ticks := ticks w; calls := calls w;
          globals := globals w |}).

Section LoggedPreservation.

Variable I : World -> Prop.
Hypothesis I_logger_closed : logger_closed I.
Variable env : Env.

Lemma logged_get_current_time (d : nat) : preserves I (get_current_time env d).
Proof.
  intros w H. destruct d; [exact H|].
  cbn [get_current_time snd]. now apply (proj1 I_logger_closed).
Qed.

Lemma logged_append_logs (message : string) :
  preserves I (append_logs env message).
Proof.
  intros w H. unfold append_logs. destruct (logs_io env (ticks w)); [exact H|].
  cbn [snd]. now apply (proj2 I_logger_closed).
Qed.

Lemma logged_logging (d : nat) :
  (forall msg kind, preserves I (log env d msg kind)) /\
  (forall e, preserves I (log_undefined_error env d e)).
Proof.
  induction d as [|d [IHlog IHlue]].
  - split; intros; apply preserves_raise.
  - split.
    + intros msg kind. cbn [log].
      apply preserves_bind.
      * apply preserves_try_except.
        -- destruct (negb (strip (lower kind) =? "title")).
           ++ apply preserves_bind; [apply preserves_dict_index|].
              intros t. apply preserves_ret.
           ++ apply preserves_ret.
        -- repeat constructor; cbn [snd]; intros e.
           ++ apply preserves_bind; [apply IHlog | intros _; apply preserves_raise].
           ++ apply preserves_bind; [apply IHlue | intros _; apply preserves_ret].
      * intros message. apply preserves_bind; [apply logged_get_current_time|].
        intros time. apply preserves_try_except; [apply logged_append_logs|].
        repeat constructor; cbn [snd]; intros e.
        -- apply preserves_bind; [apply IHlog | intros _; apply preserves_raise].
        -- apply IHlue.
    + intros e. cbn [log_undefined_error]. apply IHlog.
Qed.

Lemma logged_log (d : nat) (msg kind : string) : preserves I (log env d msg kind).
Proof. apply logged_logging. Qed.

Lemma logged_log_undefined_error (d : nat) (e : exn) :
  preserves I (log_undefined_error env d e).
Proof. apply logged_logging. Qed.

Lemma logged_to_iso_code (d : nat) (language : string) :
  preserves I (to_iso_code env d language).
Proof.
  destruct d as [|d]; [apply preserves_raise|]. cbn [to_iso_code].
  apply preserves_try_except; [apply preserves_dict_index|].
  repeat constructor; cbn [snd]; intros e.
  - apply preserves_bind; [apply logged_log | intros _; apply preserves_raise].
  - apply preserves_bind;
      [apply logged_log_undefined_error | intros _; apply preserves_ret].
Qed.

Lemma logged_is_valid_result (d : nat) (result_type : string) :
  preserves I (is_valid_result env d result_type).
Proof.
  destruct d as [|d]; [apply preserves_raise|]. cbn [is_valid_result].
  destruct (existsb (String.eqb (strip result_type)) result_types).
  - apply preserves_ret.
  - apply preserves_bind; [apply logged_log | intros _; apply preserves_raise].
Qed.

End LoggedPreservation.

(** The log holds at least the text [old], at its start. *)
Definition log_extends (old : string) (w : World) : Prop :=
  exists suffix, logs w = old ++ suffix.

Lemma log_extends_closed (old : string) : logger_closed (log_extends old).
Proof.
  split.
  - intros w n [s H]. now exists s.
  - intros w s' [s H]. exists (s ++ s'). cbn [logs]. rewrite H.
    apply append_assoc.
Qed.

Lemma log_extends_refl (w : World) : log_extends (logs w) w.
Proof. exists "". clear. induction (logs w) as [|c s IH]; cbn; congruence. Qed.

(** X1. The logger and [log_undefined_error] write the log and read the
    clock only: the calls recorded and the globals are as they were,
    whatever the kind, the log store and the frames left. *)
Theorem log_touches_log_and_clock_only
  (env : Env) (d : nat) (msg kind : string) (e : exn) (w : World) :
  (calls (snd (log env d msg kind w)) = calls w /\
   globals (snd (log env d msg kind w)) = globals w) /\
  (calls (snd (log_undefined_error env d e w)) = calls w /\
   globals (snd (log_undefined_error env d e w)) = globals w).
Proof.
  set (I := fun w' : World => calls w' = calls w /\ globals w' = globals w).
  assert (Hso : script_only I).
  { intros w1 w2 Hc Hg [H1 H2]. split; congruence. }
  split.
  - apply (preserves_log I Hso env d msg kind w). split; reflexivity.
  - apply (preserves_log_undefined_error I Hso env d e w). split; reflexivity.
Qed.

(** X2. The log is append-only: after a call of the logger, returned or
    raised, the log starts with what it held before. *)
Theorem log_is_append_only
  (env : Env) (d : nat) (msg kind : string) (w : World) :
  exists suffix, logs (snd (log env d msg kind w)) = logs w ++ suffix.
Proof.
  apply (logged_log (log_extends (logs w)) (log_extends_closed _) env d msg kind w).
  apply log_extends_refl.
Qed.

Lemma bind_ok {A B : Type} (m : M A) (k : A -> M B) (w w' : World) (a : A) :
  m w = (Ok a, w') -> bind m k w = k a w'.
Proof. intros H. unfold bind. now rewrite H. Qed.

Lemma bind_raise {A B : Type} (m : M A) (k : A -> M B) (w w' : World) (e : exn) :
  m w = (Raise e, w') -> bind m k w = (Raise e, w').
Proof. intros H. unfold bind. now rewrite H. Qed.

Section UnwritableStore.

Variable env : Env.
Hypothesis Hio :
  forall n, exists e, logs_io env n = Some e /\ is_Exception e = true.

(** With a log store that cannot be opened every attempt to log ends at
    the recursion limit, and nothing is written. *)
Lemma unwritable_logging (d : nat) :
  (forall msg kind w,
     fst (log env d msg kind w) = Raise (recursion_error env) /\
     logs (snd (log env d msg kind w)) = logs w) /\
  (forall e w,
     fst (log_undefined_error env d e w) = Raise (recursion_error env) /\
     logs (snd (log_undefined_error env d e w)) = logs w).
Proof.
  induction d as [|d [IHlog IHlue]].
  - split; intros; split; reflexivity.
  - split; [|intros e w; cbn [log_undefined_error]; apply IHlog].
    intros msg kind w. cbn [log].
    assert (Hrec : forall m (w0 : World) (B : Type) (k : unit -> M B),
              fst (bind (log env d m "error") k w0) = Raise (recursion_error env) /\
              logs (snd (bind (log env d m "error") k w0)) = logs w0).
    { intros m w0 B k. unfold bind.
      destruct (IHlog m "error" w0) as [H1 H2].
      destruct (log env d m "error" w0) as [[u|e'] w']; cbn [fst snd] in *;
        [discriminate | injection H1 as ->; split; [reflexivity | assumption]]. }
    assert (Hwrite : forall message (w0 : World),
              logs w0 = logs w ->
              fst (bind (get_current_time env d)
                     (fun time =>
                        try_except (append_logs env (nl ++ time ++ " | " ++ message))
                          [ (is_FileNotFoundError, fun _ =>
                               let err := "Can't find the logs file, to save the log..." in
                               log env d err "error" ;;
                               raise (Exn FileNotFoundError err));
                            (is_Exception, fun e => log_undefined_error env d e) ]) w0)
                = Raise (recursion_error env) /\
              logs (snd (bind (get_current_time env d)
                     (fun time =>
                        try_except (append_logs env (nl ++ time ++ " | " ++ message))
                          [ (is_FileNotFoundError, fun _ =>
                               let err := "Can't find the logs file, to save the log..." in
                               log env d err "error" ;;
                               raise (Exn FileNotFoundError err));
                            (is_Exception, fun e => log_undefined_error env d e) ]) w0))
                = logs w).
    { intros message w0 Hw0. destruct d as [|d'].
      - split; [reflexivity | exact Hw0].
      - unfold bind at 1. rewrite get_current_time_S.
        unfold bind at 2. rewrite get_current_time_S.
        unfold try_except, append_logs.
        match goal with
        | |- context [logs_io env ?n] =>
            destruct (Hio n) as (io_error & Hio' & Hexc); rewrite Hio'
        end.
        cbn [dispatch].
        destruct (is_FileNotFoundError io_error).
        + cbv zeta.
          match goal with
          | |- fst (bind _ ?k ?w1) = _ /\ _ =>
              destruct (Hrec "Can't find the logs file, to save the log..." w1 unit k)
                as [H1 H2]
          end.
          split; [exact H1 | rewrite H2; exact Hw0].
        + rewrite Hexc.
          match goal with
          | |- fst (log_undefined_error _ _ _ ?w1) = _ /\ _ =>
              destruct (IHlue io_error w1) as [H1 H2]
          end.
          split; [exact H1 | rewrite H2; exact Hw0]. }
    match goal with
    | |- fst (bind ?T ?R w) = _ /\ _ =>
        assert (HT : (exists message, T w = (Ok message, w)) \/
                     (fst (T w) = Raise (recursion_error env) /\
                      logs (snd (T w)) = logs w));
        [ | destruct HT as [[message HT] | [HT1 HT2]];
            [ rewrite (bind_ok _ _ _ _ _ HT); now apply Hwrite
            | destruct (T w) as [[a|e'] w'] eqn:ET; cbn [fst snd] in *;
              [ discriminate
              | rewrite (bind_raise _ _ _ _ _ ET); injection HT1 as ->;
                split; [reflexivity | assumption] ] ] ]
    end.
    unfold try_except.
    destruct (negb (strip (lower kind) =? "title")).
    + unfold bind at 1. unfold dict_index.
      destruct (dict_get types_hash (strip (lower kind))) as [t|].
      * left. eexists. reflexivity.
      * right. unfold raise at 1. unfold bind at 2. unfold raise at 2.
        cbn [dispatch is_KeyError class_of exn_class_eqb]. apply Hrec.
    + left. eexists. reflexivity.
Qed.

End UnwritableStore.

(** X3. While the log store cannot be opened, whatever [Exception] each
    opening raises, no call of the logger returns and none raises the
    [FileNotFoundError] of line 72: reporting the failure calls the logger
    again, and the call ends with a [RecursionError] and nothing written. *)
Theorem log_cannot_report_a_closed_store
  (env : Env) (d : nat) (msg kind : string) (w : World) :
  (forall n, exists e, logs_io env n = Some e /\ is_Exception e = true) ->
  (exists text, fst (log env d msg kind w) = Raise (Exn RecursionError text)) /\
  logs (snd (log env d msg kind w)) = logs w.
Proof.
  intros Hio.
  destruct (proj1 (unwritable_logging env Hio d) msg kind w) as [H1 H2].
  split; [|exact H2]. eexists. exact H1.
Qed.

Lemma log_cannot_report_a_closed_store_witness :
  let env := env_with demo_configuration
               (Some (Exn FileNotFoundError "No such file or directory")) None in
  (exists text,
     fst (log env 7 "X" "info" fresh_world) = Raise (Exn RecursionError text)) /\
  logs (snd (log env 7 "X" "info" fresh_world)) = "old".
Proof.
  cbv zeta.
  apply (log_cannot_report_a_closed_store
           (env_with demo_configuration
              (Some (Exn FileNotFoundError "No such file or directory")) None)
           7 "X" "info" fresh_world).
  intros n. eexists. split; reflexivity.
Defined.

(** [log_undefined_error] on a log that can be written. *)
Lemma log_undefined_error_ok (env : Env) (d : nat) (e : exn) (w : World) :
  writable env ->
  log_undefined_error env (S (S (S d))) e w =
  (Ok tt, with_line env w ("[E]: An exception is not handled: " ++ exn_str e)).
Proof.
  intros Hio. cbn [log_undefined_error].
  now rewrite (log_tagged env d _ "error" "E" w Hio).
Qed.

(** X4. With a log that can be written, [log_undefined_error] returns
    after writing one error line that ends with the text of the exception;
    it raises nothing itself, so the caller goes on. *)
Theorem log_undefined_error_writes_and_returns
  (env : Env) (d : nat) (e : exn) (w : World) :
  writable env ->
  3 <= d ->
  exists w',
    log_undefined_error env d e w = (Ok tt, w') /\
    logs w' = logs w ++ nl ++ timestamp env w ++
              " | [E]: An exception is not handled: " ++ exn_str e /\
    calls w' = calls w /\
    globals w' = globals w.
Proof.
  intros Hio Hd. destruct d as [|[|[|d]]]; try lia.
  rewrite (log_undefined_error_ok env d e w Hio).
  eexists. split; [reflexivity|]. repeat split.
Qed.

Lemma log_undefined_error_writes_and_returns_witness :
  let e := Exn KeyError ("caf" ++ String "233"%char "") in
  exists w',
    log_undefined_error demo_env 3 e fresh_world = (Ok tt, w') /\
    logs w' = "old" ++ String "010"%char
                ("08/03/2021 at 12:00:00 | [E]: An exception is not handled: 'caf"
                 ++ String "233"%char "'") /\
    calls w' = calls fresh_world /\
    globals w' = globals fresh_world.
Proof.
  cbv zeta.
  apply (log_undefined_error_writes_and_returns demo_env 3
           (Exn KeyError ("caf" ++ String "233"%char "")) fresh_world);
    [intros n; reflexivity | lia].
Defined.

(** [str] of an exception: the text itself, or its [repr] for a [KeyError];
    a letter of the supplement is kept, a control is escaped. *)
Example exn_str_texts :
  exn_str (Exn TypeError "boom") = "boom" /\
  exn_str (Exn KeyError "consumer-key") = "'consumer-key'" /\
  exn_str (Exn KeyError (String "233"%char "")) =
    String "039"%char (String "233"%char "'") /\
  exn_str (Exn KeyError (String "160"%char "")) = "'\xa0'" /\
  exn_str (Exn KeyError nl) = "'\n'".
Proof. repeat split. Qed.

(** ** The phases of the module, one by one *)

(** The text of the [FileNotFoundError] of line 153. *)
Definition configuration_missing_error : string :=
  "We could not find the configuration file (" ++ CONFIGURATION_ROUTE ++
  "), remember to run from the root...".

(** The text of the [KeyError] of line 191. *)
Definition parse_error : string :=
  "Can't parse the configuration for querying the tweets...".

(** X5. When [configuration.json] is not there, the run stops in the first
    phase: one error line names the file, a [FileNotFoundError] with the
    same text is raised, no call to tweepy is made and no global is
    assigned. *)
Theorem missing_configuration_file_stops_the_run
  (env : Env) (d : nat) (w : World) (e : exn) :
  read_configuration env = Raise e ->
  is_FileNotFoundError e = true ->
  writable env ->
  2 <= d ->
  exists w',
    module_body env d w =
      (Raise (Exn FileNotFoundError configuration_missing_error), w') /\
    logs w' = logs w ++ nl ++ timestamp env w ++ " | [E]: " ++
              configuration_missing_error /\
    calls w' = calls w /\
    globals w' = globals w.
Proof.
  intros Hread Hfnf Hio Hd. destruct d as [|[|d]]; try lia.
  assert (Hload :
    load_configuration env (S (S d)) w =
    (Raise (Exn FileNotFoundError configuration_missing_error),
     with_line env w ("[E]: " ++ configuration_missing_error))).
  { unfold load_configuration, try_except. unfold bind at 1. unfold lift.
    rewrite Hread. cbn [dispatch]. rewrite Hfnf. unfold bind.
    now rewrite (log_tagged env d _ "error" "E" w Hio). }
  unfold module_body. rewrite (bind_raise _ _ _ _ _ Hload).
  eexists. split; [reflexivity|]. repeat split.
Qed.

Lemma missing_configuration_file_stops_the_run_witness :
  let env :=
    {| clock := demo_clock; logs_io := fun _ => None;
       fault_text := cpython_text;
       read_configuration := Raise (Exn FileNotFoundError "No such file");
       OAuthHandler_raises := fun _ _ => None;
       set_access_token_raises := fun _ _ => None;
       api_raises := fun _ => None;
       search_items := fun _ _ _ => (demo_statuses, None) |} in
  exists w',
    module_body env 2 fresh_world =
      (Raise (Exn FileNotFoundError configuration_missing_error), w') /\
    logs w' = logs fresh_world ++ nl ++ timestamp env fresh_world ++ " | [E]: " ++
              configuration_missing_error /\
    calls w' = calls fresh_world /\
    globals w' = globals fresh_world.
Proof.
  cbv zeta.
  eapply missing_configuration_file_stops_the_run;
    [reflexivity | reflexivity | intros n; reflexivity | lia].
Defined.

Section PhaseRuns.

Variable env : Env.

(** The credentials phase on a document that has the record and its two
    keys. *)
Lemma extract_credentials_run
  (d : nat) (doc c : list (string * json)) (k s : json) (w : World) :
  configuration (globals w) = Some (JDict doc) ->
  dict_get doc "credentials" = Some (JDict c) ->
  dict_get c "consumer-key" = Some k ->
  dict_get c "consumer-secret" = Some s ->
  extract_credentials env d w =
  (Ok tt,
   {| logs := logs w; ticks := ticks w; calls := calls w;
      globals :=
        set_CONSUMER_SECRET s
          (set_CONSUMER_KEY k
             (set_ACCESS_TOKEN_SECRET (JStr "")
                (set_ACCESS_TOKEN (JStr "")
                   (set_CONSUMER_SECRET (JStr "")
                      (set_CONSUMER_KEY (JStr "") (globals w)))))) |}).
Proof.
  intros Hcfg Hc Hk Hs. unfold extract_credentials. run_script.
  rewrite Hcfg. run_script. rewrite Hc. run_script. rewrite Hk. run_script.
  rewrite Hs. run_script. reflexivity.
Qed.

(** The credentials phase when reading the credentials raises a
    [TypeError]: the member is there and is not a record. *)
Lemma extract_credentials_not_a_record
  (d : nat) (doc : list (string * json)) (v : json) (w : World) :
  writable env ->
  configuration (globals w) = Some (JDict doc) ->
  dict_get doc "credentials" = Some v ->
  (forall c, v <> JDict c) ->
  getitem env v "consumer-key" =
    Raise (Exn TypeError (fault_text env (BadSubscript v))) /\
  extract_credentials env (S (S (S d))) w =
  (Ok tt,
   with_line env
     {| logs := logs w; ticks := ticks w; calls := calls w;
        globals :=
          set_ACCESS_TOKEN_SECRET (JStr "")
            (set_ACCESS_TOKEN (JStr "")
               (set_CONSUMER_SECRET (JStr "")
                  (set_CONSUMER_KEY (JStr "") (globals w)))) |}
     ("[E]: An exception is not handled: " ++ fault_text env (BadSubscript v))).
Proof.
  intros Hio Hcfg Hc Hv. unfold extract_credentials. run_script.
  rewrite Hcfg. run_script. rewrite Hc. run_script.
  destruct v as [|b|z|t|s|l|c]; try (exfalso; now apply (Hv c));
    run_script;
    rewrite (log_undefined_error_ok env d _ _ Hio);
    (split; [reflexivity | reflexivity]).
Qed.

End PhaseRuns.

(** X6. From a document with the credentials record and its two keys the
    phase takes the two values as they are written, strings or not, sets
    both access-token globals to the empty string whatever else the record
    holds, and writes nothing to the log. *)
Theorem credentials_are_taken_as_written
  (env : Env) (d : nat) (doc c : list (string * json)) (k s : json) (w : World) :
  configuration (globals w) = Some (JDict doc) ->
  dict_get doc "credentials" = Some (JDict c) ->
  dict_get c "consumer-key" = Some k ->
  dict_get c "consumer-secret" = Some s ->
  exists w',
    extract_credentials env d w = (Ok tt, w') /\
    CONSUMER_KEY (globals w') = k /\
    CONSUMER_SECRET (globals w') = s /\
    ACCESS_TOKEN (globals w') = JStr "" /\
    ACCESS_TOKEN_SECRET (globals w') = JStr "" /\
    logs w' = logs w /\
    calls w' = calls w.
Proof.
  intros Hcfg Hc Hk Hs.
  rewrite (extract_credentials_run env d doc c k s w Hcfg Hc Hk Hs).
  eexists. split; [reflexivity|]. repeat split.
Qed.

Lemma credentials_are_taken_as_written_witness :
  let w := {| logs := "old"; ticks := 0; calls := [];
              globals := set_configuration demo_configuration fresh_globals |} in
  exists w',
    extract_credentials demo_env 0 w = (Ok tt, w') /\
    CONSUMER_KEY (globals w') = JStr "key" /\
    CONSUMER_SECRET (globals w') = JStr "secret" /\
    ACCESS_TOKEN (globals w') = JStr "" /\
    ACCESS_TOKEN_SECRET (globals w') = JStr "" /\
    logs w' = logs w /\
    calls w' = calls w.
Proof.
  cbv zeta.
  eapply credentials_are_taken_as_written; reflexivity.
Defined.

(** X7. A credentials member that is there and is not a record (null, a
    string, a number, a list) does not stop the run: subscripting it raises
    a [TypeError] with the interpreter's text for a value that has no string
    keys, the error is logged as an exception that is not handled, the phase
    returns, and the consumer key and secret stay the empty string. *)
Theorem credentials_of_the_wrong_type_are_dropped
  (env : Env) (d : nat) (doc : list (string * json)) (v : json) (w : World) :
  writable env ->
  3 <= d ->
  configuration (globals w) = Some (JDict doc) ->
  dict_get doc "credentials" = Some v ->
  (forall c, v <> JDict c) ->
  exists w',
    extract_credentials env d w = (Ok tt, w') /\
    getitem env v "consumer-key" =
      Raise (Exn TypeError (fault_text env (BadSubscript v))) /\
    logs w' = logs w ++ nl ++ timestamp env w ++
              " | [E]: An exception is not handled: " ++
              fault_text env (BadSubscript v) /\
    CONSUMER_KEY (globals w') = JStr "" /\
    CONSUMER_SECRET (globals w') = JStr "" /\
    calls w' = calls w.
Proof.
  intros Hio Hd Hcfg Hc Hv. destruct d as [|[|[|d]]]; try lia.
  destruct (extract_credentials_not_a_record env d doc v w Hio Hcfg Hc Hv)
    as (Hget & Hrun).
  rewrite Hrun. eexists. split; [reflexivity|].
  split; [exact Hget|]. repeat split.
Qed.

Lemma credentials_of_the_wrong_type_are_dropped_witness :
  let doc := [("credentials", JStr "key:secret"); ("hashtag", JStr "#test")] in
  let w := {| logs := "old"; ticks := 0; calls := [];
              globals := set_configuration (JDict doc) fresh_globals |} in
  exists w',
    extract_credentials demo_env 3 w = (Ok tt, w') /\
    getitem demo_env (JStr "key:secret") "consumer-key" =
      Raise (Exn TypeError "string indices must be integers, not 'str'") /\
    logs w' = "old" ++ String "010"%char
                "08/03/2021 at 12:00:00 | [E]: An exception is not handled: string indices must be integers, not 'str'" /\
    CONSUMER_KEY (globals w') = JStr "" /\
    CONSUMER_SECRET (globals w') = JStr "" /\
    calls w' = calls w.
Proof.
  cbv zeta.
  refine (credentials_of_the_wrong_type_are_dropped demo_env 3
            [("credentials", JStr "key:secret"); ("hashtag", JStr "#test")]
            (JStr "key:secret") _ _ _ _ _ _);
    [intros n; reflexivity | lia | reflexivity | reflexivity
    | intros c; discriminate].
Defined.

(** ** Building the client *)

(** Every exception tweepy raises while the client is built is an
    [Exception]. *)
Definition tweepy_raises_exceptions (env : Env) : Prop :=
  (forall k s e, OAuthHandler_raises env k s = Some e -> is_Exception e = true) /\
  (forall k s e, set_access_token_raises env k s = Some e -> is_Exception e = true) /\
  (forall a e, api_raises env a = Some e -> is_Exception e = true).

(** The handler line 176 builds and line 177 completes. *)
Definition built_auth (w : World) : auth_handler :=
  {| ah_consumer_key := CONSUMER_KEY (globals w);
     ah_consumer_secret := CONSUMER_SECRET (globals w);
     ah_access_token :=
       Some (ACCESS_TOKEN (globals w), ACCESS_TOKEN_SECRET (globals w)) |}.

Ltac run_client :=
  run_script; cbn [ah_consumer_key ah_consumer_secret ah_access_token].

Section ClientRuns.

Variable env : Env.

Lemma create_api_run (d : nat) (w : World) :
  OAuthHandler_raises env (CONSUMER_KEY (globals w)) (CONSUMER_SECRET (globals w))
    = None ->
  set_access_token_raises env (ACCESS_TOKEN (globals w))
    (ACCESS_TOKEN_SECRET (globals w)) = None ->
  api_raises env (built_auth w) = None ->
  create_api env d w =
  (Ok tt,
   {| logs := logs w; ticks := ticks w;
      calls :=
        ((calls w ++
          [CallOAuthHandler (CONSUMER_KEY (globals w)) (CONSUMER_SECRET (globals w))]) ++
         [CallSetAccessToken (ACCESS_TOKEN (globals w))
            (ACCESS_TOKEN_SECRET (globals w))]) ++
        [CallApi (built_auth w)];
      globals :=
        set_api (Some (ApiHandle (built_auth w)))
          (set_auth (Some (built_auth w))
             (set_auth
                (Some {| ah_consumer_key := CONSUMER_KEY (globals w);
                         ah_consumer_secret := CONSUMER_SECRET (globals w);
                         ah_access_token := None |})
                (set_api None (set_auth None (globals w))))) |}).
Proof.
  intros Ho Hs Ha. unfold built_auth in *.
  unfold create_api, tweepy_OAuthHandler, tweepy_set_access_token, tweepy_api.
  run_client. rewrite Ho. run_client. rewrite Hs. run_client.
  rewrite Ha. run_client. reflexivity.
Qed.

(** The exception that ends the building of the client, if any: the one of
    the first of the three calls that raises. *)
Definition first_failure (w : World) : option exn :=
  match OAuthHandler_raises env (CONSUMER_KEY (globals w))
          (CONSUMER_SECRET (globals w)) with
  | Some e => Some e
  | None =>
      match set_access_token_raises env (ACCESS_TOKEN (globals w))
              (ACCESS_TOKEN_SECRET (globals w)) with
      | Some e => Some e
      | None => api_raises env (built_auth w)
      end
  end.

Lemma create_api_swallows (d : nat) (w : World) :
  writable env ->
  tweepy_raises_exceptions env ->
  exists w',
    create_api env (S (S (S d))) w = (Ok tt, w') /\
    match first_failure w with
    | Some e =>
        api (globals w') = None /\
        logs w' = logs w ++ nl ++ timestamp env w ++
                  " | [E]: An exception is not handled: " ++ exn_str e /\
        ticks w' = S (S (ticks w))
    | None =>
        api (globals w') = Some (ApiHandle (built_auth w)) /\
        logs w' = logs w /\
        ticks w' = ticks w
    end.
Proof.
  intros Hio (Ho & Hs & Ha). unfold first_failure.
  destruct (OAuthHandler_raises env (CONSUMER_KEY (globals w))
              (CONSUMER_SECRET (globals w))) as [e|] eqn:Eo.
  { pose proof (Ho _ _ _ Eo) as He.
    unfold create_api, tweepy_OAuthHandler. run_client. rewrite Eo.
    destruct e as [[] arg]; try discriminate He; run_client;
      rewrite (log_undefined_error_ok env d _ _ Hio);
      (eexists; split; [reflexivity|]); cbn [globals api set_api set_auth snd];
      repeat split. }
  destruct (set_access_token_raises env (ACCESS_TOKEN (globals w))
              (ACCESS_TOKEN_SECRET (globals w))) as [e|] eqn:Es.
  { unfold create_api, tweepy_OAuthHandler, tweepy_set_access_token.
    pose proof (Hs _ _ _ Es) as He.
    run_client. rewrite Eo. run_client. rewrite Es.
    destruct e as [[] arg]; try discriminate He; run_client;
      rewrite (log_undefined_error_ok env d _ _ Hio);
      (eexists; split; [reflexivity|]); cbn [globals api set_api set_auth snd];
      repeat split. }
  destruct (api_raises env (built_auth w)) as [e|] eqn:Ea.
  { unfold built_auth in Ea.
    unfold create_api, tweepy_OAuthHandler, tweepy_set_access_token, tweepy_api.
    pose proof (Ha _ _ Ea) as He.
    run_client. rewrite Eo. run_client. rewrite Es. run_client.
    rewrite Ea.
    destruct e as [[] arg]; try discriminate He; run_client;
      rewrite (log_undefined_error_ok env d _ _ Hio);
      (eexists; split; [reflexivity|]); cbn [globals api set_api set_auth snd];
      repeat split. }
  rewrite (create_api_run _ w Eo Es Ea).
  eexists. split; [reflexivity|]. cbn. repeat split.
Qed.

End ClientRuns.

(** X8. When the three tweepy calls succeed the client is built from the
    consumer pair and the access-token pair the globals hold: the three
    calls are made in the order handler, token, client, the handler given
    to the client carries the token pair, and nothing is logged. *)
Theorem create_api_builds_the_client (env : Env) (d : nat) (w : World) :
  OAuthHandler_raises env (CONSUMER_KEY (globals w)) (CONSUMER_SECRET (globals w))
    = None ->
  set_access_token_raises env (ACCESS_TOKEN (globals w))
    (ACCESS_TOKEN_SECRET (globals w)) = None ->
  api_raises env (built_auth w) = None ->
  exists w',
    create_api env d w = (Ok tt, w') /\
    api (globals w') = Some (ApiHandle (built_auth w)) /\
    auth (globals w') = Some (built_auth w) /\
    calls w' =
      (calls w ++
       [CallOAuthHandler (CONSUMER_KEY (globals w)) (CONSUMER_SECRET (globals w));
        CallSetAccessToken (ACCESS_TOKEN (globals w)) (ACCESS_TOKEN_SECRET (globals w));
        CallApi (built_auth w)])%list /\
    logs w' = logs w.
Proof.
  intros Ho Hs Ha. rewrite (create_api_run env d w Ho Hs Ha).
  eexists. split; [reflexivity|]. cbn [globals api auth set_api set_auth calls logs].
  repeat split. now rewrite <- !app_assoc.
Qed.

Lemma create_api_builds_the_client_witness :
  exists w',
    create_api demo_env 0 fresh_world = (Ok tt, w') /\
    api (globals w') = Some (ApiHandle (built_auth fresh_world)) /\
    auth (globals w') = Some (built_auth fresh_world) /\
    calls w' =
      (calls fresh_world ++
       [CallOAuthHandler (CONSUMER_KEY (globals fresh_world))
          (CONSUMER_SECRET (globals fresh_world));
        CallSetAccessToken (ACCESS_TOKEN (globals fresh_world))
          (ACCESS_TOKEN_SECRET (globals fresh_world));
        CallApi (built_auth fresh_world)])%list /\
    logs w' = logs fresh_world.
Proof.
  apply (create_api_builds_the_client demo_env 0 fresh_world); reflexivity.
Defined.

(** X9. Building the client never stops the run.  With a log that can be
    written: when one of the three tweepy calls raises an [Exception], the
    first that does ends the building, that exception is logged as not
    handled in one error line and dropped, and [api] is left at [None];
    when the three calls succeed [api] holds the client and nothing is
    logged.  So [api] holds a client exactly when the three calls
    succeeded. *)
Theorem create_api_never_stops_the_run (env : Env) (d : nat) (w : World) :
  writable env ->
  3 <= d ->
  tweepy_raises_exceptions env ->
  exists w',
    create_api env d w = (Ok tt, w') /\
    match OAuthHandler_raises env (CONSUMER_KEY (globals w))
            (CONSUMER_SECRET (globals w)),
          set_access_token_raises env (ACCESS_TOKEN (globals w))
            (ACCESS_TOKEN_SECRET (globals w)),
          api_raises env (built_auth w) with
    | Some e, _, _ | None, Some e, _ | None, None, Some e =>
        api (globals w') = None /\
        logs w' = logs w ++ nl ++ timestamp env w ++
                  " | [E]: An exception is not handled: " ++ exn_str e
    | None, None, None =>
        api (globals w') = Some (ApiHandle (built_auth w)) /\
        logs w' = logs w
    end.
Proof.
  intros Hio Hd Ht. destruct d as [|[|[|d]]]; try lia.
  destruct (create_api_swallows env d w Hio Ht) as (w' & Hrun & H).
  exists w'. split; [exact Hrun|].
  unfold first_failure in H.
  destruct (OAuthHandler_raises env _ _); [tauto|].
  destruct (set_access_token_raises env _ _); [tauto|].
  destruct (api_raises env _); tauto.
Qed.

Lemma create_api_never_stops_the_run_witness :
  let env :=
    {| clock := demo_clock; logs_io := fun _ => None;
       fault_text := cpython_text;
       read_configuration := Ok demo_configuration;
       OAuthHandler_raises := fun _ _ => None;
       set_access_token_raises := fun _ _ => None;
       api_raises := fun _ => Some (Exn TypeError "'module' object is not callable");
       search_items := fun _ _ _ => (demo_statuses, None) |} in
  exists w',
    create_api env 3 fresh_world = (Ok tt, w') /\
    api (globals w') = None /\
    logs w' =
      "old" ++ String "010"%char
        "08/03/2021 at 12:00:00 | [E]: An exception is not handled: 'module' object is not callable".
Proof.
  cbv zeta.
  refine (create_api_never_stops_the_run
            {| clock := demo_clock; logs_io := fun _ => None;
               fault_text := cpython_text;
               read_configuration := Ok demo_configuration;
               OAuthHandler_raises := fun _ _ => None;
               set_access_token_raises := fun _ _ => None;
               api_raises :=
                 fun _ => Some (Exn TypeError "'module' object is not callable");
               search_items := fun _ _ _ => (demo_statuses, None) |}
            3 fresh_world _ _ _).
  - intros n. reflexivity.
  - lia.
  - repeat split; cbn; intros; try discriminate.
    match goal with H : Some _ = Some _ |- _ => injection H as <- end. reflexivity.
Defined.

(** ** Parsing the query parameters *)

Section QueryRuns.

Variable env : Env.

Lemma parse_query_run
  (d : nat) (doc : list (string * json)) (h m : json) (l r code : string)
  (w : World) :
  configuration (globals w) = Some (JDict doc) ->
  dict_get doc "hashtag" = Some h ->
  dict_get doc "max-tweets" = Some m ->
  dict_get doc "language" = Some (JStr l) ->
  dict_get languages (lower l) = Some code ->
  dict_get doc "result-type" = Some (JStr r) ->
  existsb (String.eqb (strip (lower r))) result_types = true ->
  parse_query env (S d) w =
  (Ok tt,
   {| logs := logs w; ticks := ticks w; calls := calls w;
      globals :=
        set_RESULT_TYPE (JStr (strip (lower r)))
          (set_LANGUAGE (JStr code)
             (set_MAX_TWEETS m
                (set_HASHTAG h
                   (set_RESULT_TYPE (JStr "")
                      (set_LANGUAGE (JStr "")
                         (set_MAX_TWEETS (JStr "")
                            (set_HASHTAG (JStr "") (globals w)))))))) |}).
Proof.
  intros Hcfg Hh Hm Hl Hcode Hr Hv. unfold parse_query. run_script.
  rewrite Hcfg. run_script. rewrite Hh. run_script.
  rewrite Hcfg. run_script. rewrite Hm. run_script.
  rewrite Hcfg. run_script. rewrite Hl. run_script.
  rewrite (to_iso_code_supported env d _ code _ Hcode). run_script.
  rewrite Hcfg. run_script. rewrite Hr. run_script.
  rewrite (is_valid_result_valid env d _ _ Hv). run_script.
  reflexivity.
Qed.

End QueryRuns.

(** X10. From a document with the four query members, a language whose
    lower-cased form is in the table and a result type whose lower-cased,
    trimmed form is one of the three, the phase returns with the hashtag
    and the maximum as written, the language as its code and the result
    type lower-cased and trimmed; the result type is thus accepted in any
    case.  Nothing is logged and no call is made. *)
Theorem parse_query_normalises
  (env : Env) (d : nat) (doc : list (string * json)) (h m : json)
  (l r code : string) (w : World) :
  1 <= d ->
  configuration (globals w) = Some (JDict doc) ->
  dict_get doc "hashtag" = Some h ->
  dict_get doc "max-tweets" = Some m ->
  dict_get doc "language" = Some (JStr l) ->
  dict_get languages (lower l) = Some code ->
  dict_get doc "result-type" = Some (JStr r) ->
  In (strip (lower r)) result_types ->
  exists w',
    parse_query env d w = (Ok tt, w') /\
    HASHTAG (globals w') = h /\
    MAX_TWEETS (globals w') = m /\
    LANGUAGE (globals w') = JStr code /\
    RESULT_TYPE (globals w') = JStr (strip (lower r)) /\
    logs w' = logs w /\
    calls w' = calls w.
Proof.
  intros Hd Hcfg Hh Hm Hl Hcode Hr Hv. destruct d as [|d]; [lia|].
  assert (Hv' : existsb (String.eqb (strip (lower r))) result_types = true).
  { apply result_types_member. cbn [result_types In] in Hv.
    destruct Hv as [<-|[<-|[<-|[]]]]; tauto. }
  rewrite (parse_query_run env d doc h m l r code w Hcfg Hh Hm Hl Hcode Hr Hv').
  eexists. split; [reflexivity|]. repeat split.
Qed.

Lemma parse_query_normalises_witness :
  let doc := [("hashtag", JStr "#test"); ("max-tweets", JInt 5);
              ("language", JStr "SPANISH"); ("result-type", JStr " Recent ")] in
  let w := {| logs := "old"; ticks := 0; calls := [];
              globals := set_configuration (JDict doc) fresh_globals |} in
  exists w',
    parse_query demo_env 1 w = (Ok tt, w') /\
    HASHTAG (globals w') = JStr "#test" /\
    MAX_TWEETS (globals w') = JInt 5 /\
    LANGUAGE (globals w') = JStr "es" /\
    RESULT_TYPE (globals w') = JStr (strip (lower " Recent ")) /\
    logs w' = logs w /\
    calls w' = calls w.
Proof.
  cbv zeta.
  eapply parse_query_normalises;
    [lia | reflexivity | reflexivity | reflexivity | reflexivity | reflexivity
     | reflexivity | right; left; reflexivity].
Defined.

Section QueryFailures.

Variable env : Env.
Hypothesis Hio : writable env.

(** The two clauses of line 190 on a [KeyError] raised by the body. *)
Lemma parse_query_unsupported_run
  (d : nat) (doc : list (string * json)) (h m : json) (l : string) (w : World) :
  configuration (globals w) = Some (JDict doc) ->
  dict_get doc "hashtag" = Some h ->
  dict_get doc "max-tweets" = Some m ->
  dict_get doc "language" = Some (JStr l) ->
  dict_get languages (lower l) = None ->
  parse_query env (S (S (S d))) w =
  (Raise (Exn KeyError parse_error),
   with_line env
     (with_line env
        {| logs := logs w; ticks := ticks w; calls := calls w;
           globals :=
             set_MAX_TWEETS m
               (set_HASHTAG h
                  (set_RESULT_TYPE (JStr "")
                     (set_LANGUAGE (JStr "")
                        (set_MAX_TWEETS (JStr "")
                           (set_HASHTAG (JStr "") (globals w)))))) |}
        ("[E]: Can't find the language requested: " ++ lower l))
     ("[E]: " ++ parse_error)).
Proof.
  intros Hcfg Hh Hm Hl Hcode. unfold parse_query. run_script.
  rewrite Hcfg. run_script. rewrite Hh. run_script.
  rewrite Hcfg. run_script. rewrite Hm. run_script.
  rewrite Hcfg. run_script. rewrite Hl. run_script.
  rewrite (to_iso_code_unsupported env d _ _ Hio Hcode). run_script.
  rewrite (log_tagged env (S d) _ "error" "E" _ Hio) by reflexivity.
  reflexivity.
Qed.

Lemma parse_query_invalid_run
  (d : nat) (doc : list (string * json)) (h m : json) (l r code : string)
  (w : World) :
  configuration (globals w) = Some (JDict doc) ->
  dict_get doc "hashtag" = Some h ->
  dict_get doc "max-tweets" = Some m ->
  dict_get doc "language" = Some (JStr l) ->
  dict_get languages (lower l) = Some code ->
  dict_get doc "result-type" = Some (JStr r) ->
  existsb (String.eqb (strip (lower r))) result_types = false ->
  parse_query env (S (S (S d))) w =
  (Raise (Exn KeyError parse_error),
   with_line env
     (with_line env
        {| logs := logs w; ticks := ticks w; calls := calls w;
           globals :=
             set_LANGUAGE (JStr code)
               (set_MAX_TWEETS m
                  (set_HASHTAG h
                     (set_RESULT_TYPE (JStr "")
                        (set_LANGUAGE (JStr "")
                           (set_MAX_TWEETS (JStr "")
                              (set_HASHTAG (JStr "") (globals w))))))) |}
        "[E]: Invalid result type from the configuration")
     ("[E]: " ++ parse_error)).
Proof.
  intros Hcfg Hh Hm Hl Hcode Hr Hv. unfold parse_query. run_script.
  rewrite Hcfg. run_script. rewrite Hh. run_script.
  rewrite Hcfg. run_script. rewrite Hm. run_script.
  rewrite Hcfg. run_script. rewrite Hl. run_script.
  rewrite (to_iso_code_supported env _ _ code _ Hcode). run_script.
  rewrite Hcfg. run_script. rewrite Hr. run_script.
  rewrite (is_valid_result_invalid env d _ _ Hio Hv). run_script.
  rewrite (log_tagged env (S d) _ "error" "E" _ Hio) by reflexivity.
  reflexivity.
Qed.

End QueryFailures.

(** The timestamp built from the readings [n] and [n + 1] of the clock. *)
Definition timestamp_at (env : Env) (n : nat) : string :=
  date_text (clock env n) ++ " at " ++ time_text (clock env (S n)).

(** A query member is absent from the document. *)
Definition query_key_missing (doc : list (string * json)) : Prop :=
  dict_get doc "hashtag" = None \/ dict_get doc "max-tweets" = None \/
  dict_get doc "language" = None \/ dict_get doc "result-type" = None.

(** The language and the result type, where present, are strings the
    resolver and the validator accept. *)
Definition query_values_accepted (doc : list (string * json)) : Prop :=
  match dict_get doc "language" with
  | Some (JStr l) => exists code, dict_get languages (lower l) = Some code
  | Some _ => False
  | None => True
  end /\
  match dict_get doc "result-type" with
  | Some (JStr r) => existsb (String.eqb (strip (lower r))) result_types = true
  | Some _ => False
  | None => True
  end.

(** X11. An unsupported language is reported twice and its explanation is
    lost: the resolver writes its error line, the module writes a second
    one, and the [KeyError] that ends the phase carries the module's text,
    not the resolver's text with the supported languages.  The hashtag and
    the maximum are assigned already; the language stays the empty
    string. *)
Theorem parse_query_unsupported_language
  (env : Env) (d : nat) (doc : list (string * json)) (h m : json) (l : string)
  (w : World) :
  writable env ->
  3 <= d ->
  configuration (globals w) = Some (JDict doc) ->
  dict_get doc "hashtag" = Some h ->
  dict_get doc "max-tweets" = Some m ->
  dict_get doc "language" = Some (JStr l) ->
  dict_get languages (lower l) = None ->
  exists w',
    parse_query env d w = (Raise (Exn KeyError parse_error), w') /\
    parse_error <> language_error (lower l) /\
    logs w' =
      (logs w ++ nl ++ timestamp_at env (ticks w) ++
       " | [E]: Can't find the language requested: " ++ lower l) ++
      nl ++ timestamp_at env (S (S (ticks w))) ++ " | [E]: " ++ parse_error /\
    HASHTAG (globals w') = h /\
    MAX_TWEETS (globals w') = m /\
    LANGUAGE (globals w') = JStr "" /\
    calls w' = calls w.
Proof.
  intros Hio Hd Hcfg Hh Hm Hl Hcode. destruct d as [|[|[|d]]]; try lia.
  rewrite (parse_query_unsupported_run env Hio d doc h m l w Hcfg Hh Hm Hl Hcode).
  eexists. split; [reflexivity|]. split; [|repeat split].
  unfold parse_error, language_error. cbn [append]. discriminate.
Qed.

Lemma parse_query_unsupported_language_witness :
  let ecole := String "201"%char "cole" in
  let doc := [("hashtag", JStr "#test"); ("max-tweets", JInt 5);
              ("language", JStr ecole); ("result-type", JStr "recent")] in
  let w := {| logs := "old"; ticks := 0; calls := [];
              globals := set_configuration (JDict doc) fresh_globals |} in
  exists w',
    parse_query demo_env 3 w = (Raise (Exn KeyError parse_error), w') /\
    parse_error <> language_error (lower ecole) /\
    logs w' =
      ("old" ++ nl ++ timestamp_at demo_env 0 ++
       " | [E]: Can't find the language requested: " ++ String "233"%char "cole") ++
      nl ++ timestamp_at demo_env 2 ++ " | [E]: " ++ parse_error /\
    HASHTAG (globals w') = JStr "#test" /\
    MAX_TWEETS (globals w') = JInt 5 /\
    LANGUAGE (globals w') = JStr "" /\
    calls w' = calls w.
Proof.
  cbv zeta.
  refine (parse_query_unsupported_language demo_env 3
            [("hashtag", JStr "#test"); ("max-tweets", JInt 5);
             ("language", JStr (String "201"%char "cole"));
             ("result-type", JStr "recent")]
            (JStr "#test") (JInt 5) (String "201"%char "cole") _ _ _ _ _ _ _ _);
    [intros n; reflexivity | lia | reflexivity | reflexivity | reflexivity
    | reflexivity | reflexivity].
Defined.

(** X12. A result type that is not one of the three is reported twice as
    well: the validator's error line, the module's error line, and the
    module's [KeyError]; the text naming the value asked for is lost.  The
    language is assigned already; the result type stays the empty
    string. *)
Theorem parse_query_invalid_result_type
  (env : Env) (d : nat) (doc : list (string * json)) (h m : json)
  (l r code : string) (w : World) :
  writable env ->
  3 <= d ->
  configuration (globals w) = Some (JDict doc) ->
  dict_get doc "hashtag" = Some h ->
  dict_get doc "max-tweets" = Some m ->
  dict_get doc "language" = Some (JStr l) ->
  dict_get languages (lower l) = Some code ->
  dict_get doc "result-type" = Some (JStr r) ->
  ~ In (strip (lower r)) result_types ->
  exists w',
    parse_query env d w = (Raise (Exn KeyError parse_error), w') /\
    logs w' =
      (logs w ++ nl ++ timestamp_at env (ticks w) ++
       " | [E]: Invalid result type from the configuration") ++
      nl ++ timestamp_at env (S (S (ticks w))) ++ " | [E]: " ++ parse_error /\
    LANGUAGE (globals w') = JStr code /\
    RESULT_TYPE (globals w') = JStr "" /\
    calls w' = calls w.
Proof.
  intros Hio Hd Hcfg Hh Hm Hl Hcode Hr Hv. destruct d as [|[|[|d]]]; try lia.
  assert (Hv' : existsb (String.eqb (strip (lower r))) result_types = false).
  { destruct (existsb (String.eqb (strip (lower r))) result_types) eqn:E;
      [|reflexivity].
    exfalso. apply Hv. apply result_types_member in E.
    cbn [result_types In]. destruct E as [-> | [-> | ->]]; tauto. }
  rewrite (parse_query_invalid_run env Hio d doc h m l r code w
             Hcfg Hh Hm Hl Hcode Hr Hv').
  eexists. split; [reflexivity|]. repeat split.
Qed.

Lemma parse_query_invalid_result_type_witness :
  let doc := [("hashtag", JStr "#test"); ("max-tweets", JInt 5);
              ("language", JStr "Spanish"); ("result-type", JStr "newest")] in
  let w := {| logs := "old"; ticks := 0; calls := [];
              globals := set_configuration (JDict doc) fresh_globals |} in
  exists w',
    parse_query demo_env 3 w = (Raise (Exn KeyError parse_error), w') /\
    logs w' =
      (logs w ++ nl ++ timestamp_at demo_env (ticks w) ++
       " | [E]: Invalid result type from the configuration") ++
      nl ++ timestamp_at demo_env (S (S (ticks w))) ++ " | [E]: " ++ parse_error /\
    LANGUAGE (globals w') = JStr "es" /\
    RESULT_TYPE (globals w') = JStr "" /\
    calls w' = calls w.
Proof.
  cbv zeta.
  eapply parse_query_invalid_result_type;
    [intros n; reflexivity | lia | reflexivity | reflexivity | reflexivity | reflexivity
     | reflexivity | reflexivity | ].
  cbn. intros [H|[H|[H|[]]]]; discriminate H.
Defined.

(** X13. A document whose only fault is an absent query member (hashtag,
    max-tweets, language or result-type) ends the phase with the module's
    [KeyError] after exactly one error line. *)
Theorem parse_query_missing_key
  (env : Env) (d : nat) (doc : list (string * json)) (w : World) :
  writable env ->
  2 <= d ->
  configuration (globals w) = Some (JDict doc) ->
  query_key_missing doc ->
  query_values_accepted doc ->
  exists w',
    parse_query env d w = (Raise (Exn KeyError parse_error), w') /\
    logs w' = logs w ++ nl ++ timestamp env w ++ " | [E]: " ++ parse_error /\
    calls w' = calls w.
Proof.
  intros Hio Hd Hcfg Hmiss [Hl Hr]. destruct d as [|[|d]]; try lia.
  unfold query_key_missing in Hmiss.
  unfold parse_query. run_script. rewrite Hcfg. run_script.
  destruct (dict_get doc "hashtag") as [h|]; run_script.
  2: { rewrite (log_tagged env d _ "error" "E" _ Hio) by reflexivity.
       eexists. split; [reflexivity|]. split; reflexivity. }
  rewrite Hcfg. run_script.
  destruct (dict_get doc "max-tweets") as [m|]; run_script.
  2: { rewrite (log_tagged env d _ "error" "E" _ Hio) by reflexivity.
       eexists. split; [reflexivity|]. split; reflexivity. }
  rewrite Hcfg. run_script.
  destruct (dict_get doc "language") as [[| | | |l| |]|]; try contradiction;
    run_script.
  2: { rewrite (log_tagged env d _ "error" "E" _ Hio) by reflexivity.
       eexists. split; [reflexivity|]. split; reflexivity. }
  destruct Hl as [code Hcode].
  rewrite (to_iso_code_supported env _ _ code _ Hcode). run_script.
  rewrite Hcfg. run_script.
  destruct (dict_get doc "result-type") as [[| | | |r| |]|]; try contradiction;
    run_script.
  - exfalso. destruct Hmiss as [H|[H|[H|H]]]; discriminate H.
  - rewrite (log_tagged env d _ "error" "E" _ Hio) by reflexivity.
    eexists. split; [reflexivity|]. split; reflexivity.
Qed.

Lemma parse_query_missing_key_witness :
  let doc := [("hashtag", JStr "#test"); ("language", JStr "Spanish");
              ("result-type", JStr "recent")] in
  let w := {| logs := "old"; ticks := 0; calls := [];
              globals := set_configuration (JDict doc) fresh_globals |} in
  exists w',
    parse_query demo_env 2 w = (Raise (Exn KeyError parse_error), w') /\
    logs w' = logs w ++ nl ++ timestamp demo_env w ++ " | [E]: " ++ parse_error /\
    calls w' = calls w.
Proof.
  cbv zeta.
  eapply parse_query_missing_key; [intros n; reflexivity | lia | reflexivity | | ].
  - right. left. reflexivity.
  - split; [exists "es"; reflexivity | reflexivity].
Defined.

(** ** The fetch and the whole run *)

Lemma fetch_tweets_without_api (env : Env) (w : World) :
  api (globals w) = None ->
  fetch_tweets env w =
  (Ok tt, {| logs := logs w; ticks := ticks w; calls := calls w;
             globals := set_tweets [] (globals w) |}).
Proof.
  intros Hapi. unfold fetch_tweets. run_script. rewrite Hapi. run_script.
  reflexivity.
Qed.

(** X14. The fetch never raises and never logs, with a client or without,
    however the iteration ends.  It starts from an empty list, so tweets
    of an earlier fetch are gone; without a client ([api] is [None]) the
    list stays empty and no search call is made; with one, a single
    search call is made with the hashtag and the maximum only, and the
    list holds the statuses yielded, in order. *)
Theorem fetch_tweets_never_raises (env : Env) (w : World) :
  exists w',
    fetch_tweets env w = (Ok tt, w') /\
    logs w' = logs w /\
    ticks w' = ticks w /\
    match api (globals w) with
    | Some h =>
        tweets (globals w') =
          map current_tweet
            (fst (search_items env h (HASHTAG (globals w)) (MAX_TWEETS (globals w)))) /\
        calls w' =
          (calls w ++
           [CallSearch (HASHTAG (globals w)) (MAX_TWEETS (globals w))])%list
    | None => tweets (globals w') = [] /\ calls w' = calls w
    end.
Proof.
  destruct (api (globals w)) as [h|] eqn:Hapi.
  - rewrite (fetch_tweets_with_api env w h Hapi).
    eexists. split; [reflexivity|]. repeat split.
  - rewrite (fetch_tweets_without_api env w Hapi).
    eexists. split; [reflexivity|]. repeat split.
Qed.

(** X15. A well-formed document and a tweepy that answers give a run that
    returns: the four tweepy calls are made in order with the consumer
    pair of the document, two empty strings for the access token, and the
    hashtag and maximum of the document; the language and the result type
    are normalised into their globals and passed to no call; the tweets
    are the statuses of the search; nothing is written to the log. *)
Theorem module_body_well_formed
  (env : Env) (d : nat) (doc c : list (string * json)) (k s h m : json)
  (l r code : string) (w : World) :
  let a := {| ah_consumer_key := k; ah_consumer_secret := s;
              ah_access_token := Some (JStr "", JStr "") |} in
  1 <= d ->
  read_configuration env = Ok (JDict doc) ->
  dict_get doc "credentials" = Some (JDict c) ->
  dict_get c "consumer-key" = Some k ->
  dict_get c "consumer-secret" = Some s ->
  dict_get doc "hashtag" = Some h ->
  dict_get doc "max-tweets" = Some m ->
  dict_get doc "language" = Some (JStr l) ->
  dict_get languages (lower l) = Some code ->
  dict_get doc "result-type" = Some (JStr r) ->
  In (strip (lower r)) result_types ->
  OAuthHandler_raises env k s = None ->
  set_access_token_raises env (JStr "") (JStr "") = None ->
  api_raises env a = None ->
  exists w',
    module_body env d w = (Ok tt, w') /\
    calls w' =
      (calls w ++
       [CallOAuthHandler k s; CallSetAccessToken (JStr "") (JStr "");
        CallApi a; CallSearch h m])%list /\
    tweets (globals w') =
      map current_tweet (fst (search_items env (ApiHandle a) h m)) /\
    LANGUAGE (globals w') = JStr code /\
    RESULT_TYPE (globals w') = JStr (strip (lower r)) /\
    logs w' = logs w.
Proof.
  intros a Hd Hread Hc Hk Hs Hh Hm Hl Hcode Hr Hv Ho Ht Ha.
  destruct d as [|d]; [lia|].
  assert (Hv' : existsb (String.eqb (strip (lower r))) result_types = true).
  { apply result_types_member. cbn [result_types In] in Hv.
    destruct Hv as [<-|[<-|[<-|[]]]]; tauto. }
  unfold module_body.
  rewrite (bind_ok _ _ _ _ _ (load_configuration_loaded env _ _ w Hread)).
  erewrite bind_ok;
    [|eapply extract_credentials_run; [reflexivity | exact Hc | exact Hk | exact Hs]].
  erewrite bind_ok; [|eapply create_api_run; [exact Ho | exact Ht | exact Ha]].
  erewrite bind_ok;
    [|eapply parse_query_run;
      [reflexivity | exact Hh | exact Hm | exact Hl | exact Hcode | exact Hr
       | exact Hv']].
  erewrite fetch_tweets_with_api; [|reflexivity].
  eexists. split; [reflexivity|].
  cbn [globals calls logs tweets set_tweets LANGUAGE RESULT_TYPE HASHTAG MAX_TWEETS
       set_RESULT_TYPE set_LANGUAGE set_MAX_TWEETS set_HASHTAG set_api set_auth
       set_CONSUMER_KEY set_CONSUMER_SECRET set_ACCESS_TOKEN set_ACCESS_TOKEN_SECRET
       set_configuration CONSUMER_KEY CONSUMER_SECRET ACCESS_TOKEN
       ACCESS_TOKEN_SECRET built_auth].
  repeat split. now rewrite <- !app_assoc.
Qed.

Lemma module_body_well_formed_witness :
  let a := {| ah_consumer_key := JStr "key"; ah_consumer_secret := JStr "secret";
              ah_access_token := Some (JStr "", JStr "") |} in
  exists w',
    module_body demo_env 1 fresh_world = (Ok tt, w') /\
    calls w' =
      (calls fresh_world ++
       [CallOAuthHandler (JStr "key") (JStr "secret");
        CallSetAccessToken (JStr "") (JStr "");
        CallApi a; CallSearch (JStr "#test") (JInt 5)])%list /\
    tweets (globals w') =
      map current_tweet
        (fst (search_items demo_env (ApiHandle a) (JStr "#test") (JInt 5))) /\
    LANGUAGE (globals w') = JStr "es" /\
    RESULT_TYPE (globals w') = JStr (strip (lower " recent ")) /\
    logs w' = logs fresh_world.
Proof.
  cbv zeta.
  eapply (module_body_well_formed demo_env 1);
    [lia | reflexivity | reflexivity | reflexivity | reflexivity | reflexivity
     | reflexivity | reflexivity | reflexivity | reflexivity
     | right; left; reflexivity | reflexivity | reflexivity | reflexivity].
Defined.

(** Nothing was taken from a configuration: the name is unbound and the
    consumer pair is the empty string. *)
Definition unconfigured (w : World) : Prop :=
  configuration (globals w) = None /\
  CONSUMER_KEY (globals w) = JStr "" /\
  CONSUMER_SECRET (globals w) = JStr "".

Ltac unconfigured_leaf :=
  idtac;
  lazymatch goal with
  | |- script_only _ =>
      intros ? ? Hc Hg H; unfold unconfigured; rewrite Hg; exact H
  | |- preserves _ (modify_globals _) => intros ? H; exact H
  | |- preserves _ (record_call _) => intros ? H; exact H
  end.

Lemma create_api_unconfigured (env : Env) (d : nat) :
  preserves unconfigured (create_api env d).
Proof. preserve unconfigured_leaf. Qed.

Section UnreadableConfiguration.

Variable env : Env.
Hypothesis Hio : writable env.

Lemma load_configuration_unreadable (d : nat) (e : exn) (w : World) :
  read_configuration env = Raise e ->
  is_FileNotFoundError e = false ->
  is_Exception e = true ->
  load_configuration env (S (S (S d))) w =
  (Ok tt, with_line env w ("[E]: An exception is not handled: " ++ exn_str e)).
Proof.
  intros Hread Hfnf Hexc. unfold load_configuration, try_except.
  unfold bind at 1. unfold lift. rewrite Hread. cbn [dispatch].
  rewrite Hfnf, Hexc. apply (log_undefined_error_ok env d e w Hio).
Qed.

(** The credentials phase while [configuration] is unbound. *)
Lemma extract_credentials_unbound (d : nat) (w : World) :
  configuration (globals w) = None ->
  extract_credentials env (S (S (S d))) w =
  (Ok tt,
   with_line env
     {| logs := logs w; ticks := ticks w; calls := calls w;
        globals :=
          set_ACCESS_TOKEN_SECRET (JStr "")
            (set_ACCESS_TOKEN (JStr "")
               (set_CONSUMER_SECRET (JStr "")
                  (set_CONSUMER_KEY (JStr "") (globals w)))) |}
     ("[E]: An exception is not handled: " ++
      fault_text env (UnboundName "configuration"))).
Proof.
  intros Hcfg. unfold extract_credentials. run_script. rewrite Hcfg. run_script.
  now rewrite (log_undefined_error_ok env d _ _ Hio).
Qed.

(** The parsing phase while [configuration] is unbound. *)
Lemma parse_query_unbound (d : nat) (w : World) :
  configuration (globals w) = None ->
  parse_query env (S (S (S d))) w =
  (Ok tt,
   with_line env
     {| logs := logs w; ticks := ticks w; calls := calls w;
        globals :=
          set_RESULT_TYPE (JStr "")
            (set_LANGUAGE (JStr "")
               (set_MAX_TWEETS (JStr "")
                  (set_HASHTAG (JStr "") (globals w)))) |}
     ("[E]: An exception is not handled: " ++
      fault_text env (UnboundName "configuration"))).
Proof.
  intros Hcfg. unfold parse_query. run_script. rewrite Hcfg. run_script.
  now rewrite (log_undefined_error_ok env d _ _ Hio).
Qed.

End UnreadableConfiguration.

(** X16. A configuration file that is there and cannot be read or parsed
    does not stop the run.  The exception is logged as not handled, and so
    is the [NameError] of each of the two later reads of [configuration];
    between the two the building of the client adds a line when one of its
    calls raises.  The run goes through every phase and returns, with the
    empty string for the consumer pair, the hashtag, the maximum, the
    language and the result type. *)
Theorem unreadable_configuration_does_not_stop_the_run
  (env : Env) (d : nat) (e : exn) (w : World) :
  read_configuration env = Raise e ->
  is_FileNotFoundError e = false ->
  is_Exception e = true ->
  writable env ->
  3 <= d ->
  tweepy_raises_exceptions env ->
  configuration (globals w) = None ->
  let line (n : nat) (text : string) : string :=
    String "010"%char
      (timestamp_at env (n + ticks w) ++
       " | [E]: An exception is not handled: " ++ text) in
  let unbound := fault_text env (UnboundName "configuration") in
  let a := {| ah_consumer_key := JStr ""; ah_consumer_secret := JStr "";
              ah_access_token := Some (JStr "", JStr "") |} in
  exists w',
    module_body env d w = (Ok tt, w') /\
    CONSUMER_KEY (globals w') = JStr "" /\
    CONSUMER_SECRET (globals w') = JStr "" /\
    HASHTAG (globals w') = JStr "" /\
    MAX_TWEETS (globals w') = JStr "" /\
    LANGUAGE (globals w') = JStr "" /\
    RESULT_TYPE (globals w') = JStr "" /\
    logs w' =
      match OAuthHandler_raises env (JStr "") (JStr ""),
            set_access_token_raises env (JStr "") (JStr ""),
            api_raises env a with
      | Some e', _, _ | None, Some e', _ | None, None, Some e' =>
          (((logs w ++ line 0 (exn_str e)) ++ line 2 unbound) ++
           line 4 (exn_str e')) ++ line 6 unbound
      | None, None, None =>
          ((logs w ++ line 0 (exn_str e)) ++ line 2 unbound) ++ line 4 unbound
      end.
Proof.
  intros Hread Hfnf Hexc Hio Hd Htw Hcfg line unbound a.
  destruct d as [|[|[|d]]]; try lia.
  unfold module_body.
  rewrite (bind_ok _ _ _ _ _ (load_configuration_unreadable env Hio d e w Hread Hfnf Hexc)).
  erewrite bind_ok; [|apply (extract_credentials_unbound env Hio); exact Hcfg].
  match goal with
  | |- exists w', bind (create_api _ _) _ ?w2 = _ /\ _ =>
      destruct (create_api_swallows env d w2 Hio Htw) as (w3 & Hrun & Hcase);
      assert (H3 : unconfigured w3)
        by (pose proof (create_api_unconfigured env (S (S (S d))) w2) as Hp;
            rewrite Hrun in Hp; apply Hp; repeat split; exact Hcfg)
  end.
  rewrite (bind_ok _ _ _ _ _ Hrun).
  destruct H3 as (Hc3 & Hk3 & Hs3).
  rewrite (bind_ok _ _ _ _ _ (parse_query_unbound env Hio d w3 Hc3)).
  assert (Hlogs :
    logs w3 ++ nl ++ timestamp_at env (ticks w3) ++
      " | [E]: An exception is not handled: " ++ unbound =
    match OAuthHandler_raises env (JStr "") (JStr ""),
          set_access_token_raises env (JStr "") (JStr ""),
          api_raises env a with
    | Some e', _, _ | None, Some e', _ | None, None, Some e' =>
        (((logs w ++ line 0 (exn_str e)) ++ line 2 unbound) ++
         line 4 (exn_str e')) ++ line 6 unbound
    | None, None, None =>
        ((logs w ++ line 0 (exn_str e)) ++ line 2 unbound) ++ line 4 unbound
    end).
  { unfold first_failure, built_auth in Hcase.
    cbn [globals with_line CONSUMER_KEY CONSUMER_SECRET ACCESS_TOKEN
         ACCESS_TOKEN_SECRET set_ACCESS_TOKEN_SECRET set_ACCESS_TOKEN
         set_CONSUMER_SECRET set_CONSUMER_KEY logs ticks] in Hcase.
    fold a in Hcase.
    destruct (OAuthHandler_raises env (JStr "") (JStr "")) as [e1|];
      [|destruct (set_access_token_raises env (JStr "") (JStr "")) as [e2|];
        [|destruct (api_raises env a) as [e3|]]];
      destruct Hcase as (_ & -> & ->); reflexivity. }
  match goal with
  | |- exists w', fetch_tweets _ ?w4 = _ /\ _ =>
      destruct (api (globals w4)) as [h|] eqn:Hapi;
      [ rewrite (fetch_tweets_with_api env w4 h Hapi)
      | rewrite (fetch_tweets_without_api env w4 Hapi) ]
  end;
    (eexists; split; [reflexivity|]);
    cbn [globals with_line CONSUMER_KEY CONSUMER_SECRET HASHTAG MAX_TWEETS
         LANGUAGE RESULT_TYPE set_tweets set_RESULT_TYPE set_LANGUAGE
         set_MAX_TWEETS set_HASHTAG logs ticks];
    repeat split; try assumption; exact Hlogs.
Qed.

Lemma unreadable_configuration_does_not_stop_the_run_witness :
  let env :=
    {| clock := demo_clock; logs_io := fun _ => None;
       fault_text := cpython_text;
       read_configuration :=
         Raise (Exn Exception_ "Expecting value: line 1 column 1 (char 0)");
       OAuthHandler_raises := fun _ _ => None;
       set_access_token_raises := fun _ _ => None;
       api_raises := fun _ => None;
       search_items := fun _ _ _ => (demo_statuses, None) |} in
  exists w',
    module_body env 3 fresh_world = (Ok tt, w') /\
    CONSUMER_KEY (globals w') = JStr "" /\
    CONSUMER_SECRET (globals w') = JStr "" /\
    HASHTAG (globals w') = JStr "" /\
    MAX_TWEETS (globals w') = JStr "" /\
    LANGUAGE (globals w') = JStr "" /\
    RESULT_TYPE (globals w') = JStr "" /\
    logs w' =
      (("old" ++
        String "010"%char
          "08/03/2021 at 12:00:00 | [E]: An exception is not handled: Expecting value: line 1 column 1 (char 0)") ++
       String "010"%char
         "08/03/2021 at 12:00:00 | [E]: An exception is not handled: name 'configuration' is not defined") ++
      String "010"%char
        "08/03/2021 at 12:00:00 | [E]: An exception is not handled: name 'configuration' is not defined".
Proof.
  cbv zeta.
  refine (unreadable_configuration_does_not_stop_the_run
            {| clock := demo_clock; logs_io := fun _ => None;
               fault_text := cpython_text;
               read_configuration :=
                 Raise (Exn Exception_ "Expecting value: line 1 column 1 (char 0)");
               OAuthHandler_raises := fun _ _ => None;
               set_access_token_raises := fun _ _ => None;
               api_raises := fun _ => None;
               search_items := fun _ _ _ => (demo_statuses, None) |}
            3 (Exn Exception_ "Expecting value: line 1 column 1 (char 0)")
            fresh_world _ _ _ _ _ _ _);
    [reflexivity | reflexivity | reflexivity | intros n; reflexivity | lia |
    | reflexivity].
  repeat split; cbn; intros; discriminate.
Defined.

(** The search such a run makes asks for the empty string. *)
Example unreadable_configuration_searches_nothing :
  let env :=
    {| clock := demo_clock; logs_io := fun _ => None;
       fault_text := cpython_text;
       read_configuration :=
         Raise (Exn Exception_ "Expecting value: line 1 column 1 (char 0)");
       OAuthHandler_raises := fun _ _ => None;
       set_access_token_raises := fun _ _ => None;
       api_raises := fun _ => None;
       search_items := fun _ _ _ => (demo_statuses, None) |} in
  filter is_search (calls (snd (module_body env 3 fresh_world))) =
    [CallSearch (JStr "") (JStr "")].
Proof. reflexivity. Qed.

(** ** The log over a whole run *)

Ltac logged_step leaf :=
  lazymatch goal with
  | |- preserves _ (ret _) => apply preserves_ret
  | |- preserves _ (raise _) => apply preserves_raise
  | |- preserves _ (lift _) => apply preserves_lift
  | |- preserves _ (get_configuration _) => apply preserves_get_configuration
  | |- preserves _ (dict_index _ _) => apply preserves_dict_index
  | |- preserves _ (bind (get _) _) =>
      apply preserves_bind; [apply preserves_get | intros ?]
  | |- preserves _ (bind _ _) => apply preserves_bind; [ | intros ?]
  | |- preserves _ (try_except _ _) => apply preserves_try_except
  | |- Forall _ (_ :: _) => apply Forall_cons; [cbn [snd]; intros ? | ]
  | |- Forall _ [] => apply Forall_nil
  | |- preserves _ (log _ _ _ _) => apply logged_log; solve [leaf]
  | |- preserves _ (log_undefined_error _ _ _) =>
      apply logged_log_undefined_error; solve [leaf]
  | |- preserves _ (to_iso_code _ _ _) => apply logged_to_iso_code; solve [leaf]
  | |- preserves _ (is_valid_result _ _ _) =>
      apply logged_is_valid_result; solve [leaf]
  | |- preserves _ (for_each _ _) => apply preserves_for_each; intros ?
  | |- preserves _ (match ?x with _ => _ end) => destruct x
  | |- preserves _ (modify_globals _) => solve [leaf]
  | |- preserves _ (record_call _) => solve [leaf]
  end.

Ltac logged leaf :=
  cbv beta zeta
      delta [main module_body main_block
             load_configuration extract_credentials create_api parse_query
             fetch_tweets tweepy_OAuthHandler tweepy_set_access_token
             tweepy_api tweets_append];
  repeat logged_step leaf.

Ltac log_extends_leaf :=
  idtac;
  lazymatch goal with
  | |- logger_closed _ => apply log_extends_closed
  | |- preserves _ (modify_globals _) => intros ? [s H]; exists s; exact H
  | |- preserves _ (record_call _) => intros ? [s H]; exists s; exact H
  end.

(** X17. Over a whole run, main block included, the log is append-only:
    however the run ends, with whatever log store, frames and tweepy, the
    log starts with what it held before the run. *)
Theorem run_only_appends_to_the_log (env : Env) (d : nat) (w : World) :
  exists suffix, logs (snd (main env d w)) = logs w ++ suffix.
Proof.
  assert (H : preserves (log_extends (logs w)) (main env d))
    by logged log_extends_leaf.
  apply (H w). apply log_extends_refl.
Qed.

(** X18. Run as the main program with a log that can be written, the
    block of lines 211-215 returns after four lines: the title in
    capitals with no tag, an info line, an error line and an info line, in
    this order, each with its own reading of the clock.  Every such run
    thus leaves an error line in the log. *)
Theorem main_block_writes_four_lines (env : Env) (d : nat) (w : World) :
  writable env ->
  2 <= d ->
  main_block env d w =
  (Ok tt,
   with_line env
     (with_line env
        (with_line env
           (with_line env w "THIS IS A TITLE FOR THE LOGS")
           "[I]: This is some information that has to be written at the logs")
        "[E]: This is an error")
     "[I]: This Is Weird").
Proof.
  intros Hio Hd. destruct d as [|[|d]]; try lia.
  unfold main_block.
  rewrite (bind_ok _ _ _ _ _ (log_title env d _ "title" w Hio eq_refl)).
  erewrite bind_ok; [|apply (log_tagged env d _ "info" "I" _ Hio); reflexivity].
  erewrite bind_ok; [|apply (log_tagged env d _ "error" "E" _ Hio); reflexivity].
  rewrite (log_tagged env d _ "info" "I" _ Hio) by reflexivity.
  reflexivity.
Qed.

Lemma main_block_writes_four_lines_witness :
  main_block demo_env 2 fresh_world =
  (Ok tt,
   with_line demo_env
     (with_line demo_env
        (with_line demo_env
           (with_line demo_env fresh_world "THIS IS A TITLE FOR THE LOGS")
           "[I]: This is some information that has to be written at the logs")
        "[E]: This is an error")
     "[I]: This Is Weird").
Proof.
  apply (main_block_writes_four_lines demo_env 2 fresh_world);
    [intros n; reflexivity | lia].
Defined.

(** ** Normal forms of a kind *)

Lemma is_space_lower_char (c : ascii) : is_space (lower_char c) = is_space c.
Proof. destruct c as [[] [] [] [] [] [] [] []]; vm_compute; reflexivity. Qed.

Lemma lower_char_idempotent (c : ascii) : lower_char (lower_char c) = lower_char c.
Proof. destruct c as [[] [] [] [] [] [] [] []]; vm_compute; reflexivity. Qed.

Lemma lower_idempotent (s : string) : lower (lower s) = lower s.
Proof.
  unfold lower. induction s as [|c s IH]; cbn [map_chars]; [reflexivity|].
  now rewrite lower_char_idempotent, IH.
Qed.

Lemma lstrip_lower (s : string) : lstrip (lower s) = lower (lstrip s).
Proof.
  unfold lower. induction s as [|c s IH]; cbn [map_chars lstrip]; [reflexivity|].
  rewrite is_space_lower_char. destruct (is_space c); [exact IH | reflexivity].
Qed.

Lemma rstrip_lower (s : string) : rstrip (lower s) = lower (rstrip s).
Proof.
  unfold lower. induction s as [|c s IH]; cbn [map_chars rstrip]; [reflexivity|].
  rewrite IH, is_space_lower_char.
  destruct (rstrip s) as [|a r]; cbn [map_chars]; [|reflexivity].
  destruct (is_space c); reflexivity.
Qed.

Lemma strip_lower (s : string) : strip (lower s) = lower (strip s).
Proof. unfold strip. now rewrite lstrip_lower, rstrip_lower. Qed.

Lemma lstrip_idempotent (s : string) : lstrip (lstrip s) = lstrip s.
Proof.
  induction s as [|c s IH]; cbn [lstrip]; [reflexivity|].
  destruct (is_space c) eqn:E; [exact IH|]. cbn [lstrip]. now rewrite E.
Qed.

Lemma rstrip_idempotent (s : string) : rstrip (rstrip s) = rstrip s.
Proof.
  induction s as [|c s IH]; cbn [rstrip]; [reflexivity|].
  destruct (rstrip s) as [|a r] eqn:E.
  - destruct (is_space c) eqn:Ec; cbn [rstrip]; [reflexivity | now rewrite Ec].
  - cbn [rstrip]. cbn [rstrip] in IH. now rewrite IH.
Qed.

Lemma lstrip_rstrip (s : string) : lstrip (rstrip s) = rstrip (lstrip s).
Proof.
  induction s as [|c s IH]; cbn [lstrip rstrip]; [reflexivity|].
  destruct (is_space c) eqn:Ec.
  - destruct (rstrip s) as [|a r] eqn:E.
    + rewrite <- IH. reflexivity.
    + cbn [lstrip]. rewrite Ec. exact IH.
  - cbn [rstrip]. destruct (rstrip s) as [|a r]; cbn [lstrip]; now rewrite Ec.
Qed.

Lemma strip_idempotent (s : string) : strip (strip s) = strip s.
Proof.
  unfold strip.
  now rewrite lstrip_rstrip, lstrip_idempotent, rstrip_idempotent.
Qed.

Lemma normalize_idempotent (kind : string) :
  normalize (normalize kind) = normalize kind.
Proof.
  unfold normalize.
  now rewrite <- strip_lower, lower_idempotent, strip_idempotent.
Qed.

(** X19. The logger treats a kind exactly as its normal form, the kind
    lower-cased and then trimmed: normalising twice changes nothing, and
    [log] called with a kind or with its normal form gives the same result
    and the same world. *)
Theorem log_takes_the_normal_form
  (env : Env) (d : nat) (msg kind : string) (w : World) :
  strip (lower (strip (lower kind))) = strip (lower kind) /\
  log env d msg kind w = log env d msg (strip (lower kind)) w.
Proof.
  split; [apply normalize_idempotent|].
  apply log_normalized. symmetry. apply normalize_idempotent.
Qed.

(** X20. The resolver and the validator leave the script's state alone:
    whatever their argument and however they end, the calls recorded and
    the globals are as they were; all they can change is the log. *)
Theorem resolver_and_validator_touch_the_log_only
  (env : Env) (d : nat) (s : string) (w : World) :
  (calls (snd (to_iso_code env d s w)) = calls w /\
   globals (snd (to_iso_code env d s w)) = globals w) /\
  (calls (snd (is_valid_result env d s w)) = calls w /\
   globals (snd (is_valid_result env d s w)) = globals w).
Proof.
  set (I := fun w' : World => calls w' = calls w /\ globals w' = globals w).
  assert (Hso : script_only I).
  { intros w1 w2 Hc Hg [H1 H2]. split; congruence. }
  split.
  - apply (preserves_to_iso_code I Hso env d s w). split; reflexivity.
  - apply (preserves_is_valid_result I Hso env d s w). split; reflexivity.
Qed.

(** ** A run without a client *)

Lemma create_api_run_without_client (env : Env) (d : nat) (w : World) (e : exn) :
  writable env ->
  OAuthHandler_raises env (CONSUMER_KEY (globals w)) (CONSUMER_SECRET (globals w))
    = None ->
  set_access_token_raises env (ACCESS_TOKEN (globals w))
    (ACCESS_TOKEN_SECRET (globals w)) = None ->
  api_raises env (built_auth w) = Some e ->
  is_Exception e = true ->
  create_api env (S (S (S d))) w =
  (Ok tt,
   with_line env
     {| logs := logs w; ticks := ticks w;
        calls :=
          ((calls w ++
            [CallOAuthHandler (CONSUMER_KEY (globals w))
               (CONSUMER_SECRET (globals w))]) ++
           [CallSetAccessToken (ACCESS_TOKEN (globals w))
              (ACCESS_TOKEN_SECRET (globals w))]) ++
          [CallApi (built_auth w)];
        globals :=
          set_auth (Some (built_auth w))
            (set_auth
               (Some {| ah_consumer_key := CONSUMER_KEY (globals w);
                        ah_consumer_secret := CONSUMER_SECRET (globals w);
                        ah_access_token := None |})
               (set_api None (set_auth None (globals w)))) |}
     ("[E]: An exception is not handled: " ++ exn_str e)).
Proof.
  intros Hio Ho Hs Ha He. unfold built_auth in *.
  unfold create_api, tweepy_OAuthHandler, tweepy_set_access_token, tweepy_api.
  run_client. rewrite Ho. run_client. rewrite Hs. run_client. rewrite Ha.
  destruct e as [[] arg]; try discriminate He; run_client;
    rewrite (log_undefined_error_ok env d _ _ Hio); reflexivity.
Qed.

(** X21. When the handler and the token are accepted and the call that
    builds the client raises an [Exception], as calling [tweepy.api] does
    when it is not callable, a well-formed document still gives a run that
    returns: one error line says the exception is not handled, the query
    is parsed, no search call is made and the list of tweets is empty. *)
Theorem module_body_without_client
  (env : Env) (d : nat) (doc c : list (string * json)) (k s h m : json)
  (l r code : string) (e : exn) (w : World) :
  let a := {| ah_consumer_key := k; ah_consumer_secret := s;
              ah_access_token := Some (JStr "", JStr "") |} in
  writable env ->
  3 <= d ->
  read_configuration env = Ok (JDict doc) ->
  dict_get doc "credentials" = Some (JDict c) ->
  dict_get c "consumer-key" = Some k ->
  dict_get c "consumer-secret" = Some s ->
  dict_get doc "hashtag" = Some h ->
  dict_get doc "max-tweets" = Some m ->
  dict_get doc "language" = Some (JStr l) ->
  dict_get languages (lower l) = Some code ->
  dict_get doc "result-type" = Some (JStr r) ->
  In (strip (lower r)) result_types ->
  OAuthHandler_raises env k s = None ->
  set_access_token_raises env (JStr "") (JStr "") = None ->
  api_raises env a = Some e ->
  is_Exception e = true ->
  exists w',
    module_body env d w = (Ok tt, w') /\
    api (globals w') = None /\
    tweets (globals w') = [] /\
    filter is_search (calls w') = filter is_search (calls w) /\
    LANGUAGE (globals w') = JStr code /\
    logs w' = logs w ++ nl ++ timestamp env w ++
              " | [E]: An exception is not handled: " ++ exn_str e.
Proof.
  intros a Hio Hd Hread Hc Hk Hs Hh Hm Hl Hcode Hr Hv Ho Ht Ha He.
  destruct d as [|[|[|d]]]; try lia.
  assert (Hv' : existsb (String.eqb (strip (lower r))) result_types = true).
  { apply result_types_member. cbn [result_types In] in Hv.
    destruct Hv as [<-|[<-|[<-|[]]]]; tauto. }
  unfold module_body.
  rewrite (bind_ok _ _ _ _ _ (load_configuration_loaded env _ _ w Hread)).
  erewrite bind_ok;
    [|eapply extract_credentials_run; [reflexivity | exact Hc | exact Hk | exact Hs]].
  erewrite bind_ok;
    [|eapply create_api_run_without_client;
      [exact Hio | exact Ho | exact Ht | exact Ha | exact He]].
  erewrite bind_ok;
    [|eapply parse_query_run;
      [reflexivity | exact Hh | exact Hm | exact Hl | exact Hcode | exact Hr
       | exact Hv']].
  erewrite fetch_tweets_without_api; [|reflexivity].
  eexists. split; [reflexivity|].
  cbn [globals calls logs tweets api set_tweets LANGUAGE with_line
       set_RESULT_TYPE set_LANGUAGE set_MAX_TWEETS set_HASHTAG set_api set_auth
       set_CONSUMER_KEY set_CONSUMER_SECRET set_ACCESS_TOKEN set_ACCESS_TOKEN_SECRET
       set_configuration].
  repeat split.
  rewrite !filter_app. cbn [filter is_search]. now rewrite !app_nil_r.
Qed.

Lemma module_body_without_client_witness :
  let e := Exn KeyError ("caf" ++ String "233"%char "") in
  let env :=
    {| clock := demo_clock; logs_io := fun _ => None;
       fault_text := cpython_text;
       read_configuration := Ok demo_configuration;
       OAuthHandler_raises := fun _ _ => None;
       set_access_token_raises := fun _ _ => None;
       api_raises := fun _ => Some e;
       search_items := fun _ _ _ => (demo_statuses, None) |} in
  exists w',
    module_body env 3 fresh_world = (Ok tt, w') /\
    api (globals w') = None /\
    tweets (globals w') = [] /\
    filter is_search (calls w') = filter is_search (calls fresh_world) /\
    LANGUAGE (globals w') = JStr "es" /\
    logs w' = "old" ++ String "010"%char
                ("08/03/2021 at 12:00:00 | [E]: An exception is not handled: 'caf"
                 ++ String "233"%char "'").
Proof.
  cbv zeta.
  refine (module_body_without_client
            {| clock := demo_clock; logs_io := fun _ => None;
               fault_text := cpython_text;
               read_configuration := Ok demo_configuration;
               OAuthHandler_raises := fun _ _ => None;
               set_access_token_raises := fun _ _ => None;
               api_raises :=
                 fun _ => Some (Exn KeyError ("caf" ++ String "233"%char ""));
               search_items := fun _ _ _ => (demo_statuses, None) |}
            3 _ _ _ _ _ _ "Spanish" " recent " "es"
            (Exn KeyError ("caf" ++ String "233"%char "")) fresh_world
            _ _ _ _ _ _ _ _ _ _ _ _ _ _ _ _);
    [intros n; reflexivity | lia | reflexivity | reflexivity | reflexivity
    | reflexivity | reflexivity | reflexivity | reflexivity | reflexivity
    | reflexivity | right; left; reflexivity | reflexivity | reflexivity
    | reflexivity | reflexivity].
Defined.

(** X22. What is not an [Exception] is handled differently by the two
    phases that call tweepy: raised by the handler's constructor it ends
    the phase and the run, with nothing logged, since the clause of line
    179 takes an [Exception] only; raised by the iteration of the search
    it is swallowed by the bare clause of line 208 like every other. *)
Theorem interrupt_stops_the_build_not_the_fetch
  (env : Env) (d : nat) (w : World) (e : exn) :
  is_Exception e = false ->
  (OAuthHandler_raises env (CONSUMER_KEY (globals w)) (CONSUMER_SECRET (globals w))
     = Some e ->
   exists w', create_api env d w = (Raise e, w') /\ logs w' = logs w) /\
  (forall h items,
     api (globals w) = Some h ->
     search_items env h (HASHTAG (globals w)) (MAX_TWEETS (globals w))
       = (items, Some e) ->
     exists w', fetch_tweets env w = (Ok tt, w') /\ logs w' = logs w).
Proof.
  intros He. split.
  - intros Ho. unfold create_api, tweepy_OAuthHandler. run_client. rewrite Ho.
    destruct e as [[] arg]; try discriminate He. run_client.
    eexists. split; reflexivity.
  - intros h items Hapi Hitems. rewrite (fetch_tweets_with_api env w h Hapi).
    eexists. split; reflexivity.
Qed.

Lemma interrupt_stops_the_build_not_the_fetch_witness :
  let e := Exn BaseException_ "KeyboardInterrupt" in
  let env :=
    {| clock := demo_clock; logs_io := fun _ => None;
       fault_text := cpython_text;
       read_configuration := Ok demo_configuration;
       OAuthHandler_raises := fun _ _ => Some e;
       set_access_token_raises := fun _ _ => None;
       api_raises := fun _ => None;
       search_items := fun _ _ _ => (demo_statuses, Some e) |} in
  let h := ApiHandle (built_auth fresh_world) in
  let w := {| logs := "old"; ticks := 0; calls := [];
              globals := set_api (Some h) fresh_globals |} in
  (exists w', create_api env 3 w = (Raise e, w') /\ logs w' = logs w) /\
  (exists w', fetch_tweets env w = (Ok tt, w') /\ logs w' = logs w).
Proof.
  cbv zeta.
  match goal with
  | |- (exists w', create_api ?env ?d ?w = (Raise ?e, w') /\ _) /\ _ =>
      destruct (interrupt_stops_the_build_not_the_fetch env d w e eq_refl)
        as [Hbuild Hfetch]
  end.
  split.
  - apply Hbuild. reflexivity.
  - eapply Hfetch; reflexivity.
Defined.
